(** * CombinedGameEvents: recent-bets table over two on-chain games

    A shallow embedding of the React component [CombinedGameEvents]
    (historical scan of Roll logs in block-range chunks, live subscription,
    capped most-recent-first list) and the properties of its list handling,
    chunking, error handling and liveness flag.

    Conventions of the embedding
    - JavaScript integers ([blockNumber], block arithmetic) are [Z]; all the
      values involved are far below 2^53, where [number] arithmetic is exact.
      [Number] of a decoded BigInt rounds as a double does
      ([Number_of_bigint]).
    - [undefined] is [None]; [NaN] is a constructor of [JSNumber].
    - A promise that rejects and a call that throws are both [Rejected].
    - The JSON-RPC node and the ABI decoder are oracles ([Provider],
      [Interface]) that answer equal calls equally; every call to the node
      is recorded in a call log.
    - The liveness flag [isMounted] is written by the teardown closure, which
      can run at any [await]; each read of the flag is therefore an input. *)

From Stdlib Require Import ZArith List String Ascii Bool Lia.
From Stdlib Require Import Permutation Sorted.
From Stdlib Require Import DecimalString.
Import ListNotations.
Open Scope string_scope.
Open Scope list_scope.
Open Scope Z_scope.

(** ** JavaScript primitives used by the component *)

Module Js.

(** [Array.prototype.sort(cmp)]: a stable sort; [cmp a b > 0] puts [b] first,
    [cmp a b <= 0] keeps [a] first. *)
Section ArraySort.
Context {A : Type} (cmp : A -> A -> Z).

Fixpoint insert (x : A) (l : list A) : list A :=
  match l with
  | [] => [x]
  | y :: t => if 0 <? cmp x y then y :: insert x t else x :: y :: t
  end.

Fixpoint sort (l : list A) : list A :=
  match l with
  | [] => []
  | x :: t => insert x (sort t)
  end.

End ArraySort.

(** [Array.prototype.slice(start, end)] for non-negative indices. *)
Definition slice {A : Type} (start stop : nat) (l : list A) : list A :=
  firstn (stop - start) (skipn start l).

(** [Array.prototype.some]. *)
Definition some {A : Type} (p : A -> bool) (l : list A) : bool := existsb p l.

(** [String.prototype.toLowerCase] on ASCII text (addresses are hex text). *)
Definition lowerChar (c : ascii) : ascii :=
  let n := nat_of_ascii c in
  if (Nat.leb 65 n && Nat.leb n 90)%bool then ascii_of_nat (n + 32) else c.

Fixpoint toLowerCase (s : string) : string :=
  match s with
  | EmptyString => EmptyString
  | String c t => String (lowerChar c) (toLowerCase t)
  end.

(** [Math.max] and [Math.ceil(a / b)] on integers, [b > 0]. *)
Definition Math_max (a b : Z) : Z := Z.max a b.
Definition Math_ceil_div (a b : Z) : Z := - ((- a) / b).

(** [x || d] on a string: the empty string is falsy. *)
Definition orElse (x d : string) : string := if String.eqb x "" then d else x.

(** Truthiness of [string | undefined]. *)
Definition truthy (x : option string) : bool :=
  match x with
  | Some s => negb (String.eqb s "")
  | None => false
  end.

End Js.

(** A JavaScript [number] as the component produces it. *)
Inductive JSNumber : Type :=
| NaN
| Num (z : Z).

(** [Number(b)] of a BigInt [b]: the double nearest to [b], a tie going to
    the even one. An integer of magnitude up to 2^53 is kept; a larger one
    keeps its 53 leading bits, rounded, so the result is again an integer.
    The decoded [uint256] values are below 2^256, far from the overflow of
    doubles. *)
Definition Number_of_bigint (b : Z) : Z :=
  let a := Z.abs b in
  if a <=? 2 ^ 53 then b
  else
    let e := Z.log2 a - 52 in
    let q := a / 2 ^ e in
    let r := a mod 2 ^ e in
    let half := 2 ^ (e - 1) in
    let q' :=
      if ((half <? r) || ((r =? half) && Z.odd q))%bool then q + 1 else q in
    Z.sgn b * (q' * 2 ^ e).

(** ** Data model *)

Inductive GameType : Type := dice | coinflip.

Record GameEvent : Type := mkGameEvent {
  blockNumber : Z;
  transactionHash : string;
  player : option string;
  amount : option Z;
  choice : JSNumber;
  outcome : JSNumber;
  won : option bool;
  gameType : GameType;
  timestamp : Z
}.

(** [ethers.Log], the fields the component reads. *)
Record Log : Type := mkLog {
  log_blockNumber : Z;
  log_transactionHash : string;
  log_topics : list string;
  log_data : string
}.

(** [parsedLog.args] of a Roll event. *)
Record RollArgs : Type := mkRollArgs {
  arg_player : string;
  arg_amount : Z;
  arg_choice : Z;
  arg_outcome : Z;
  arg_won : bool
}.

Record Block : Type := mkBlock { block_timestamp : Z }.

Definition DICE_CONTRACT_ADDRESS : string :=
  "0x095b5DB1A520d96BcAc69E2AeD832273A6f08343".
Definition COINFLIP_CONTRACT_ADDRESS : string :=
  "0xb7b23027C7E861d59d2f5b2fE8B3E97ECA534c42".
Definition MAX_RESULTS : nat := 12.
Definition TOTAL_BLOCKS_TO_CHECK : Z := 2000.
Definition MAX_CHUNK_SIZE : Z := 450.

(** ** The node and the decoder as oracles; the call log *)

Inductive Settled (A : Type) : Type :=
| Fulfilled (a : A)
| Rejected.
Arguments Fulfilled {A} a.
Arguments Rejected {A}.

Record Provider : Type := mkProvider {
  getBlockNumber : Settled Z;
  getLogs : string -> Z -> Z -> Settled (list Log);
  getBlock : Z -> Settled (option Block)
}.

(** [iface.parseLog({topics, data})]: throws, returns [null], or decodes. *)
Record Interface : Type := mkInterface {
  parseLog : list string -> string -> Settled (option RollArgs)
}.

Inductive RpcCall : Type :=
| CallGetBlockNumber
| CallGetLogs (address : string) (fromBlock toBlock : Z)
| CallGetBlock (number : Z).

(** An asynchronous computation: how it settles and which calls it made. *)
Definition Async (A : Type) : Type := (Settled A * list RpcCall)%type.

Definition ret {A : Type} (a : A) : Async A := (Fulfilled a, []).

Definition bind {A B : Type} (m : Async A) (k : A -> Async B) : Async B :=
  match fst m with
  | Fulfilled a => let r := k a in (fst r, snd m ++ snd r)
  | Rejected => (Rejected, snd m)
  end.

(** [try { m } catch (err) { h }] *)
Definition tryCatch {A : Type} (m : Async A) (h : Async A) : Async A :=
  match fst m with
  | Fulfilled a => m
  | Rejected => (fst h, snd m ++ snd h)
  end.

(** A synchronous call that may throw, made inside an async body. *)
Definition sync {A : Type} (r : Settled A) : Async A := (r, []).

Definition await {A : Type} (c : RpcCall) (r : Settled A) : Async A := (r, [c]).

Notation "x <- m ;; k" := (bind m (fun x => k))
  (at level 61, m at next level, right associativity).

(** ** The list operations of the component *)

(** [(a, b) => b.blockNumber - a.blockNumber] *)
Definition byBlockDesc (a b : GameEvent) : Z := blockNumber b - blockNumber a.

(** [[...diceEvents, ...coinflipEvents].sort(...).slice(0, MAX_RESULTS)] *)
Definition allEvents (diceEvents coinflipEvents : list GameEvent)
  : list GameEvent :=
  Js.slice 0 MAX_RESULTS (Js.sort byBlockDesc (diceEvents ++ coinflipEvents)).

(** The updater passed to [setEvents] by [handleLog]. *)
Definition eventsUpdater (newEvent : GameEvent) (prev : list GameEvent)
  : list GameEvent :=
  if Js.some (fun e => String.eqb (transactionHash e) (transactionHash newEvent))
       prev
  then prev
  else Js.slice 0 MAX_RESULTS (Js.sort byBlockDesc (newEvent :: prev)).

(** ** Component state and its setters *)

Record State : Type := mkState {
  events : list GameEvent;
  loading : bool;
  error : option string
}.

(** [useState([])], [useState(true)], [useState(null)] *)
Definition initialState : State :=
  {| events := []; loading := true; error := None |}.

Inductive Setter : Type :=
| SetEvents (l : list GameEvent)
| SetEventsWith (newEvent : GameEvent)
| SetLoading (b : bool)
| SetError (m : option string).

(** One call of a state setter. [afterTeardown] tells whether the effect
    run that makes the call has had its [isMounted] set to [false]. *)
Record Update : Type := mkUpdate {
  afterTeardown : bool;
  setter : Setter
}.

Definition applySetter (s : Setter) (st : State) : State :=
  match s with
  | SetEvents l =>
      {| events := l; loading := loading st; error := error st |}
  | SetEventsWith e =>
      {| events := eventsUpdater e (events st);
         loading := loading st; error := error st |}
  | SetLoading b =>
      {| events := events st; loading := b; error := error st |}
  | SetError m =>
      {| events := events st; loading := loading st; error := m |}
  end.

Definition applyUpdates (us : list Update) (st : State) : State :=
  fold_left (fun s u => applySetter (setter u) s) us st.

(** What the component returns from its render. [RenderThrows]: the render
    throws, which the table branch does when [formatEther(event.amount)]
    meets a row whose amount is undefined. *)
Inductive View : Type :=
| LoadingView
| ErrorView (text : string)
| NoView
| TableView (rows : list GameEvent)
| RenderThrows.

(** [formatEther] accepts the amount of the row. *)
Definition hasAmount (e : GameEvent) : bool :=
  match amount e with
  | Some _ => true
  | None => false
  end.

Definition render (st : State) : View :=
  if (loading st && Nat.eqb (List.length (events st)) 0)%bool then LoadingView
  else if Js.truthy (error st) then ErrorView "Error"
  else if Nat.eqb (List.length (events st)) 0 then NoView
  else if forallb hasAmount (events st) then TableView (events st)
  else RenderThrows.

(** ** Numbers, dates and the cells of a table row *)

(** [a - b], [Math.floor(a / b)] with a positive constant [b], [a < b],
    [a === b] and [String(a)] on numbers whose values are integers: [NaN]
    propagates through the arithmetic and every comparison with it is false. *)
Definition numSub (a b : JSNumber) : JSNumber :=
  match a, b with
  | Num x, Num y => Num (x - y)
  | _, _ => NaN
  end.

Definition numFloorDiv (a : JSNumber) (b : Z) : JSNumber :=
  match a with
  | Num x => Num (x / b)
  | NaN => NaN
  end.

Definition numLt (a : JSNumber) (b : Z) : bool :=
  match a with
  | Num x => x <? b
  | NaN => false
  end.

Definition numEq (a : JSNumber) (b : Z) : bool :=
  match a with
  | Num x => x =? b
  | NaN => false
  end.

Definition numToString (a : JSNumber) : string :=
  match a with
  | Num x => NilZero.string_of_int (Z.to_int x)
  | NaN => "NaN"
  end.

(** [new Date(ms).getTime()]: the time value, [NaN] for a date out of the
    range of 8.64e15 milliseconds around the epoch. *)
Definition MAX_TIME_VALUE : Z := 8640000000000000.

Definition Date_getTime (ms : Z) : JSNumber :=
  if Z.abs ms <=? MAX_TIME_VALUE then Num ms else NaN.

(** [count === 1 ? '' : 's'] *)
Definition plural (count : JSNumber) : string :=
  if numEq count 1 then "" else "s".

(** [formatTimestamp]; [now] is the value of [Date.now()]. *)
Definition formatTimestamp (now timestamp : Z) : string :=
  let date := Date_getTime (timestamp * 1000) in
  let diff := numFloorDiv (numSub (Num now) date) 60000 in
  if numLt diff 1 then "Just now"
  else if numLt diff 60 then
    (numToString diff ++ " min" ++ plural diff ++ " ago")%string
  else if numLt diff 1440 then
    (numToString (numFloorDiv diff 60) ++ " hour"
     ++ plural (numFloorDiv diff 60) ++ " ago")%string
  else
    (numToString (numFloorDiv diff 1440) ++ " day"
     ++ plural (numFloorDiv diff 1440) ++ " ago")%string.

(** [{event.player?.slice(0, 6)}...{event.player?.slice(-4)}]; an undefined
    player renders as nothing. *)
Definition playerCell (player : option string) : string :=
  match player with
  | Some p =>
      (substring 0 6 p ++ "..." ++ substring (String.length p - 4) 4 p)%string
  | None => "..."
  end.

(** ** The historical scan *)

Definition startBlock (latestBlock : Z) : Z :=
  Js.Math_max (latestBlock - TOTAL_BLOCKS_TO_CHECK) 0.

Definition totalBlocksToScan (latestBlock : Z) : Z :=
  latestBlock - startBlock latestBlock.

Definition chunksNeeded (latestBlock : Z) : Z :=
  Js.Math_ceil_div (totalBlocksToScan latestBlock) MAX_CHUNK_SIZE.

Definition chunkStart (latestBlock i : Z) : Z :=
  latestBlock - (i * MAX_CHUNK_SIZE) - MAX_CHUNK_SIZE.

Definition chunkEnd (latestBlock i : Z) : Z :=
  latestBlock - (i * MAX_CHUNK_SIZE).

Definition fromBlock (latestBlock i : Z) : Z :=
  Js.Math_max (chunkStart latestBlock i) (startBlock latestBlock).

Definition toBlock (latestBlock i : Z) : Z := chunkEnd latestBlock i.

(** The object literal built from a log, its decoding and its block; the
    historical loop and [handleLog] write the same literal. [parsedLog] is
    [None] when [parseLog] returned [null]: every [parsedLog?.args.x] is then
    [undefined], and [Number(undefined)] is [NaN]. *)
Definition gameEventOf (log : Log) (parsedLog : option RollArgs)
  (player : option string) (gameType : GameType) (block : Block) : GameEvent :=
  {| blockNumber := log_blockNumber log;
     transactionHash := Js.orElse (log_transactionHash log) "unknown";
     player := player;
     amount := option_map arg_amount parsedLog;
     choice := match parsedLog with
               | Some a => Num (Number_of_bigint (arg_choice a))
               | None => NaN end;
     outcome := match parsedLog with
                | Some a => Num (Number_of_bigint (arg_outcome a))
                | None => NaN end;
     won := option_map arg_won parsedLog;
     gameType := gameType;
     timestamp := block_timestamp block |}.

(** [parsedLog?.args.player.toLowerCase()] *)
Definition playerOf (parsedLog : option RollArgs) : option string :=
  option_map (fun a => Js.toLowerCase (arg_player a)) parsedLog.

Section FetchEventsForContract.

Variable provider : Provider.
Variable iface : Interface.
(** [isMounted i]: the flag as read by the loop test of iteration [i]. *)
Variable isMounted : Z -> bool.
Variable contractAddress : string.
Variable gameType : GameType.

(** [for (let i = 0; i < chunksNeeded && isMounted; i++)], with [todo]
    iterations left before [i] reaches [chunksNeeded]. *)
Fixpoint scanChunks (latestBlock : Z) (todo : nat) (i : Z)
  (allLogs : list Log) : Async (list Log) :=
  match todo with
  | O => ret allLogs
  | S todo' =>
      if isMounted i then
        allLogs' <-
          tryCatch
            (logs <- await (CallGetLogs contractAddress
                              (fromBlock latestBlock i) (toBlock latestBlock i))
                           (getLogs provider contractAddress
                              (fromBlock latestBlock i) (toBlock latestBlock i)) ;;
             ret (allLogs ++ logs))
            (ret allLogs) ;;
        scanChunks latestBlock todo' (i + 1) allLogs'
      else ret allLogs
  end.

(** One iteration of [for (const log of allLogs)]: the records it pushes. *)
Definition parseOne (log : Log) : Async (list GameEvent) :=
  tryCatch
    (parsedLog <- sync (parseLog iface (log_topics log) (log_data log)) ;;
     let player := playerOf parsedLog in
     block <- await (CallGetBlock (log_blockNumber log))
                    (getBlock provider (log_blockNumber log)) ;;
     match block with
     | None => ret []
     | Some b => ret [gameEventOf log parsedLog player gameType b]
     end)
    (ret []).

Fixpoint parseLogs (allLogs : list Log) (parsedEvents : list GameEvent)
  : Async (list GameEvent) :=
  match allLogs with
  | [] => ret parsedEvents
  | log :: rest =>
      pushed <- parseOne log ;;
      parseLogs rest (parsedEvents ++ pushed)
  end.

Definition fetchEventsForContract : Async (list GameEvent) :=
  latestBlock <- await CallGetBlockNumber (getBlockNumber provider) ;;
  allLogs <- scanChunks latestBlock (Z.to_nat (chunksNeeded latestBlock)) 0 [] ;;
  parseLogs allLogs [].

End FetchEventsForContract.

(** [Promise.all([a, b])]: both run; it fulfils when both do. *)
Definition promiseAll2 {A B : Type} (a : Async A) (b : Async B)
  : Async (A * B) :=
  (match fst a, fst b with
   | Fulfilled x, Fulfilled y => Fulfilled (x, y)
   | _, _ => Rejected
   end, snd a ++ snd b).

(** ** The two effects *)

Record EffectRun : Type := mkEffectRun {
  updates : list Update;
  rpc : list RpcCall;
  listeners : list string
}.

(** [!isConnected || !currentAccount] *)
Definition guard (isConnected : bool) (currentAccount : option string) : bool :=
  (negb isConnected || negb (Js.truthy currentAccount))%bool.

(** The first effect. [mountedDice] and [mountedCoin] are the reads of the
    flag by the two scans, [mountedAtJoin] its value when [Promise.all]
    settles. The calls of the two concurrent scans are logged one scan after
    the other. *)
Definition historyEffect (isConnected : bool) (currentAccount : option string)
  (provider : Provider) (iface : Interface)
  (mountedDice mountedCoin : Z -> bool) (mountedAtJoin : bool) : EffectRun :=
  if guard isConnected currentAccount then
    {| updates := [mkUpdate false (SetEvents []); mkUpdate false (SetLoading false)];
       rpc := [];
       listeners := [] |}
  else
    let fetched :=
      promiseAll2
        (fetchEventsForContract provider iface mountedDice
           DICE_CONTRACT_ADDRESS dice)
        (fetchEventsForContract provider iface mountedCoin
           COINFLIP_CONTRACT_ADDRESS coinflip) in
    let gone := negb mountedAtJoin in
    {| updates :=
         [mkUpdate false (SetLoading true); mkUpdate false (SetError None)]
         ++ match fst fetched with
            | Fulfilled (diceEvents, coinflipEvents) =>
                if negb mountedAtJoin then []
                else [mkUpdate gone (SetEvents (allEvents diceEvents coinflipEvents))]
            | Rejected =>
                [mkUpdate gone (SetError (Some "Failed to fetch events"))]
            end
         ++ [mkUpdate gone (SetLoading false)];
       rpc := snd fetched;
       listeners := [] |}.

(** [player !== currentAccount.toLowerCase()], negated. *)
Definition samePlayer (player : option string) (currentAccount : string) : bool :=
  match player with
  | Some p => String.eqb p (Js.toLowerCase currentAccount)
  | None => false
  end.

(** [handleLog]; [isMounted] is the flag as read after the block lookup. *)
Definition handleLog (provider : Provider) (iface : Interface)
  (currentAccount : string) (isMounted : bool)
  (log : Log) (gameType : GameType) : Async (list Update) :=
  tryCatch
    (parsedLog <- sync (parseLog iface (log_topics log) (log_data log)) ;;
     let player := playerOf parsedLog in
     if negb (samePlayer player currentAccount) then ret []
     else
       block <- await (CallGetBlock (log_blockNumber log))
                      (getBlock provider (log_blockNumber log)) ;;
       match block with
       | None => ret []
       | Some b =>
           let newEvent := gameEventOf log parsedLog player gameType b in
           if isMounted then ret [mkUpdate false (SetEventsWith newEvent)]
           else ret []
       end)
    (ret []).

Definition handleLogUpdates (provider : Provider) (iface : Interface)
  (currentAccount : string) (isMounted : bool)
  (log : Log) (gameType : GameType) : list Update :=
  match fst (handleLog provider iface currentAccount isMounted log gameType) with
  | Fulfilled us => us
  | Rejected => []
  end.

(** The second effect, up to the registration of its listeners. *)
Definition subscriptionEffect (isConnected : bool)
  (currentAccount : option string) : EffectRun :=
  if guard isConnected currentAccount then
    {| updates := []; rpc := []; listeners := [] |}
  else
    {| updates := []; rpc := [];
       listeners := [DICE_CONTRACT_ADDRESS; COINFLIP_CONTRACT_ADDRESS] |}.

(** ** Reachable states *)

(** A setter call some run of either effect or of [handleLog] can make. *)
Inductive emits : Setter -> Prop :=
| emits_history :
    forall isConnected currentAccount provider iface mD mC mJ u,
      In u (updates (historyEffect isConnected currentAccount provider iface
                       mD mC mJ)) ->
      emits (setter u)
| emits_handleLog :
    forall provider iface currentAccount isMounted log gameType u,
      In u (handleLogUpdates provider iface currentAccount isMounted
              log gameType) ->
      emits (setter u).

Inductive reachable : State -> Prop :=
| reachable_initial : reachable initialState
| reachable_update :
    forall st s, reachable st -> emits s -> reachable (applySetter s st).

(** ** A node serving a fixed chain, for concrete runs *)

(** [eth_getLogs] returns the logs of the blocks [fromBlock..toBlock], both
    ends included. *)
Definition inRange (lo hi : Z) (l : Log) : bool :=
  ((lo <=? log_blockNumber l) && (log_blockNumber l <=? hi))%bool.

Definition nodeOver (latest : Z) (chain : string -> list Log) : Provider :=
  {| getBlockNumber := Fulfilled latest;
     getLogs := fun a lo hi => Fulfilled (filter (inRange lo hi) (chain a));
     getBlock := fun n => Fulfilled (Some {| block_timestamp := n * 2 |}) |}.

Definition failingNode : Provider :=
  {| getBlockNumber := Rejected;
     getLogs := fun _ _ _ => Rejected;
     getBlock := fun _ => Rejected |}.

(** A decoder that reads the player from the data field. *)
Definition dataIsPlayer : Interface :=
  {| parseLog := fun _ d =>
       Fulfilled (Some {| arg_player := d; arg_amount := 1; arg_choice := 3;
                          arg_outcome := 3; arg_won := true |}) |}.

Definition alwaysMounted : Z -> bool := fun _ => true.

(** ** Vocabulary for the scan *)

(** The indices [i, i+1, ...] of [n] consecutive loop iterations. *)
Fixpoint upFrom (i : Z) (n : nat) : list Z :=
  match n with
  | O => []
  | S n' => i :: upFrom (i + 1) n'
  end.

Definition chunkIndices (latestBlock : Z) : list Z :=
  upFrom 0 (Z.to_nat (chunksNeeded latestBlock)).

(** The [getLogs] call of iteration [i] and the logs it adds to [allLogs]. *)
Definition chunkCall (contractAddress : string) (latestBlock i : Z) : RpcCall :=
  CallGetLogs contractAddress (fromBlock latestBlock i) (toBlock latestBlock i).

Definition chunkLogs (provider : Provider) (contractAddress : string)
  (latestBlock i : Z) : list Log :=
  match getLogs provider contractAddress
          (fromBlock latestBlock i) (toBlock latestBlock i) with
  | Fulfilled logs => logs
  | Rejected => []
  end.

(** The node [provider] with every failing [getLogs] answered by no logs. *)
Definition quiet (provider : Provider) : Provider :=
  {| getBlockNumber := getBlockNumber provider;
     getLogs := fun a lo hi =>
       match getLogs provider a lo hi with
       | Fulfilled logs => Fulfilled logs
       | Rejected => Fulfilled []
       end;
     getBlock := getBlock provider |}.

(** The records one log contributes to [parsedEvents], and the calls made. *)
Definition recordsOf (provider : Provider) (iface : Interface)
  (gameType : GameType) (log : Log) : list GameEvent :=
  match fst (parseOne provider iface gameType log) with
  | Fulfilled l => l
  | Rejected => []
  end.

Definition callsOf (provider : Provider) (iface : Interface)
  (gameType : GameType) (log : Log) : list RpcCall :=
  snd (parseOne provider iface gameType log).

(** A block of the scanned window, and a block of query range [i]. *)
Definition inWindow (latestBlock b : Z) : Prop :=
  Js.Math_max (latestBlock - TOTAL_BLOCKS_TO_CHECK) 0 <= b <= latestBlock.

Definition inChunk (latestBlock i b : Z) : Prop :=
  fromBlock latestBlock i <= b <= toBlock latestBlock i.

Definition failedToFetch : option string := Some "Failed to fetch events".

(** ** Sample inputs *)

Definition account : string := "0x52908400098527886E0F7030069857D2E4169EE7".
Definition stranger : string := "0xde709f2102306220921060314715629080e2fb77".

Definition logAt (number : Z) (hash who : string) : Log :=
  {| log_blockNumber := number; log_transactionHash := hash;
     log_topics := []; log_data := who |}.

Definition emptyChain : string -> list Log := fun _ => [].

(** One Roll log of the dice contract, in block 1550. *)
Definition boundaryChain : string -> list Log :=
  fun a => if String.eqb a DICE_CONTRACT_ADDRESS
           then [logAt 1550 "0xaa" stranger] else [].

(** Thirteen Roll logs of the dice contract, in blocks 1988 to 2000. *)
Definition hashNo (k : nat) : string :=
  String "0" (String "x" (String (ascii_of_nat (96 + k)) EmptyString)).

Definition busyChain : string -> list Log :=
  fun a => if String.eqb a DICE_CONTRACT_ADDRESS
           then map (fun k => logAt (1987 + Z.of_nat k) (hashNo k) stranger)
                    (seq 1 13)
           else [].

Definition sampleEvent (number : Z) (hash : string) : GameEvent :=
  {| blockNumber := number; transactionHash := hash;
     player := Some (Js.toLowerCase stranger); amount := Some 1;
     choice := Num 3; outcome := Num 3; won := Some true;
     gameType := dice; timestamp := number * 2 |}.

(** A decoder that throws on empty data. *)
Definition strictDecoder : Interface :=
  {| parseLog := fun _ d =>
       if String.eqb d "" then Rejected
       else Fulfilled (Some {| arg_player := d; arg_amount := 1;
                               arg_choice := 3; arg_outcome := 3;
                               arg_won := true |}) |}.

(** A node whose [getLogs] fails on the newest chunk of block 2000 and
    returns one log on every other call. *)
Definition flakyNode : Provider :=
  {| getBlockNumber := Fulfilled 2000;
     getLogs := fun _ lo hi =>
       if hi =? 2000 then Rejected else Fulfilled [logAt hi "0xbb" stranger];
     getBlock := fun n => Fulfilled (Some {| block_timestamp := n * 2 |}) |}.

Definition strangerUpper : string :=
  "0xDE709F2102306220921060314715629080E2FB77".

(** The thirteen records decoded from [busyChain]. *)
Definition thirteen : list GameEvent :=
  map (fun k => sampleEvent (1987 + Z.of_nat k) (hashNo k)) (seq 1 13).

(** The flag as read by a scan torn down before iteration [k]. *)
Definition mountedBefore (k : Z) : Z -> bool := fun j => j <? k.

(** A decoder that knows no event of the log: [parseLog] returns null. *)
Definition nullDecoder : Interface :=
  {| parseLog := fun _ _ => Fulfilled None |}.

Definition sampleFlip (number : Z) (hash : string) : GameEvent :=
  {| blockNumber := number; transactionHash := hash;
     player := Some (Js.toLowerCase stranger); amount := Some 1;
     choice := Num 3; outcome := Num 3; won := Some true;
     gameType := coinflip; timestamp := number * 2 |}.

(** Two Roll logs of each contract, blocks 1990 to 1995. *)
Definition mixedChain : string -> list Log :=
  fun a =>
    if String.eqb a DICE_CONTRACT_ADDRESS
    then [logAt 1990 "0xa" stranger; logAt 1995 "0xb" stranger]
    else if String.eqb a COINFLIP_CONTRACT_ADDRESS
    then [logAt 1993 "0xc" stranger; logAt 1995 "0xd" stranger]
    else [].

(** The record of a log the decoder returned null for. *)
Definition undecodedEvent (number : Z) (hash : string) (g : GameType)
  : GameEvent :=
  {| blockNumber := number; transactionHash := hash;
     player := None; amount := None; choice := NaN; outcome := NaN;
     won := None; gameType := g; timestamp := number * 2 |}.

(** ** Predicates of the statements *)

(** Most recent first: of two adjacent records the first has the greater or
    equal [blockNumber]. *)
Definition mostRecentFirst (l : list GameEvent) : Prop :=
  forall i a b,
    nth_error l i = Some a -> nth_error l (S i) = Some b ->
    blockNumber b <= blockNumber a.

Definition newerOrSame (a b : GameEvent) : Prop :=
  blockNumber b <= blockNumber a.

Definition atBlock (k : Z) (e : GameEvent) : bool := blockNumber e =? k.

(** [s] holds the records of [l], those of one block in the order they have
    in [l]. Together with [mostRecentFirst s] this says that [s] is [l]
    sorted by descending [blockNumber], ties kept in place. *)
Definition sameBlockwise (l s : list GameEvent) : Prop :=
  forall k, filter (atBlock k) s = filter (atBlock k) l.

Definition hasHash (h : string) (l : list GameEvent) : Prop :=
  exists r, In r l /\ transactionHash r = h.

(** No two records of the list have the same [transactionHash]. *)
Definition distinctHashes (l : list GameEvent) : Prop :=
  NoDup (map transactionHash l).

Definition capped (l : list GameEvent) : Prop :=
  (List.length l <= MAX_RESULTS)%nat.

(** * Properties *)

(** ** [Array.prototype.sort] with the component's comparator *)

Lemma insert_perm (x : GameEvent) (l : list GameEvent) :
  Permutation (Js.insert byBlockDesc x l) (x :: l).
Proof.
  induction l as [|y t IH]; simpl.
  - apply Permutation_refl.
  - destruct (0 <? byBlockDesc x y).
    + eapply perm_trans; [apply perm_skip, IH | apply perm_swap].
    + apply Permutation_refl.
Qed.

Lemma sort_perm (l : list GameEvent) :
  Permutation (Js.sort byBlockDesc l) l.
Proof.
  induction l as [|x t IH]; simpl.
  - constructor.
  - eapply perm_trans; [apply insert_perm | apply perm_skip, IH].
Qed.

Lemma insert_Sorted (x : GameEvent) (l : list GameEvent) :
  Sorted newerOrSame l -> Sorted newerOrSame (Js.insert byBlockDesc x l).
Proof.
  induction l as [|y t IH]; intros Hs; simpl.
  - repeat constructor.
  - destruct (0 <? byBlockDesc x y) eqn:Hc.
    + apply Z.ltb_lt in Hc. unfold byBlockDesc in Hc.
      inversion Hs as [|? ? Ht Hhd]; subst.
      constructor; [apply IH, Ht |].
      destruct t as [|z t']; simpl.
      * constructor. unfold newerOrSame. lia.
      * destruct (0 <? byBlockDesc x z); constructor.
        -- inversion Hhd; assumption.
        -- unfold newerOrSame. lia.
    + apply Z.ltb_ge in Hc. unfold byBlockDesc in Hc.
      constructor; [assumption |].
      constructor. unfold newerOrSame. lia.
Qed.

Lemma sort_Sorted (l : list GameEvent) :
  Sorted newerOrSame (Js.sort byBlockDesc l).
Proof.
  induction l as [|x t IH]; simpl.
  - constructor.
  - apply insert_Sorted, IH.
Qed.

Lemma insert_filter (k : Z) (x : GameEvent) (l : list GameEvent) :
  filter (atBlock k) (Js.insert byBlockDesc x l) = filter (atBlock k) (x :: l).
Proof.
  induction l as [|y t IH]; [reflexivity |].
  cbn [Js.insert].
  destruct (0 <? byBlockDesc x y) eqn:Hc; [| reflexivity].
  apply Z.ltb_lt in Hc. unfold byBlockDesc in Hc.
  cbn [filter] in *. rewrite IH.
  unfold atBlock.
  destruct (blockNumber x =? k) eqn:Hx; destruct (blockNumber y =? k) eqn:Hy;
    try reflexivity.
  apply Z.eqb_eq in Hx, Hy. lia.
Qed.

Lemma sort_sameBlockwise (l : list GameEvent) :
  sameBlockwise l (Js.sort byBlockDesc l).
Proof.
  intros k. induction l as [|x t IH]; [reflexivity |].
  cbn [Js.sort]. rewrite insert_filter. cbn [filter]. rewrite IH. reflexivity.
Qed.

Lemma newerOrSame_trans : Relations_1.Transitive newerOrSame.
Proof. intros a b c. unfold newerOrSame. lia. Qed.

Lemma mostRecentFirst_tail (a : GameEvent) (l : list GameEvent) :
  mostRecentFirst (a :: l) -> mostRecentFirst l.
Proof. intros H i x y Hx Hy. exact (H (S i) x y Hx Hy). Qed.

Lemma Sorted_mostRecentFirst (l : list GameEvent) :
  Sorted newerOrSame l <-> mostRecentFirst l.
Proof.
  split.
  - induction 1 as [|a l Hs IH Hhd]; intros i x y Hx Hy.
    + destruct i; discriminate.
    + destruct i as [|i].
      * simpl in Hx. injection Hx as <-.
        destruct l as [|b t]; [discriminate |].
        simpl in Hy. injection Hy as <-.
        inversion Hhd; assumption.
      * exact (IH i x y Hx Hy).
  - induction l as [|a l IH]; intros H; constructor.
    + apply IH. eapply mostRecentFirst_tail, H.
    + destruct l as [|b t]; constructor.
      exact (H 0%nat a b eq_refl eq_refl).
Qed.

Lemma filter_atBlock_nil_inv (l : list GameEvent) :
  (forall k, filter (atBlock k) l = []) -> l = [].
Proof.
  destruct l as [|a t]; [reflexivity |].
  intros H. specialize (H (blockNumber a)). cbn [filter] in H.
  assert (Ea : atBlock (blockNumber a) a = true) by apply Z.eqb_refl.
  rewrite Ea in H. discriminate.
Qed.

Lemma filter_atBlock_In (k : Z) (l : list GameEvent) (a : GameEvent) (t : list GameEvent) :
  filter (atBlock k) l = a :: t -> In a l /\ blockNumber a = k.
Proof.
  intros H.
  assert (Hin : In a (filter (atBlock k) l)) by (rewrite H; left; reflexivity).
  apply filter_In in Hin. destruct Hin as [Hin Hk].
  split; [assumption | apply Z.eqb_eq, Hk].
Qed.

(** The descending, tie-preserving arrangement of a list is unique. *)
Lemma stable_sorted_unique (l1 l2 : list GameEvent) :
  StronglySorted newerOrSame l1 -> StronglySorted newerOrSame l2 ->
  (forall k, filter (atBlock k) l1 = filter (atBlock k) l2) ->
  l1 = l2.
Proof.
  revert l2. induction l1 as [|a t1 IH]; intros l2 H1 H2 Hf.
  - symmetry. apply filter_atBlock_nil_inv. intros k. rewrite <- Hf. reflexivity.
  - destruct l2 as [|b t2].
    + apply filter_atBlock_nil_inv. intros k. rewrite Hf. reflexivity.
    + inversion H1 as [|? ? Hs1 Ha]; subst.
      inversion H2 as [|? ? Hs2 Hb]; subst.
      rewrite Forall_forall in Ha, Hb.
      assert (Hab : blockNumber b <= blockNumber a).
      { pose proof (Hf (blockNumber b)) as E. cbn [filter] in E.
        assert (Eb : atBlock (blockNumber b) b = true) by apply Z.eqb_refl.
        rewrite Eb in E.
        destruct (atBlock (blockNumber b) a) eqn:Ea.
        - apply Z.eqb_eq in Ea. lia.
        - apply filter_atBlock_In in E. destruct E as [Hin _].
          apply (Ha b Hin). }
      assert (Hba : blockNumber a <= blockNumber b).
      { pose proof (Hf (blockNumber a)) as E. cbn [filter] in E.
        assert (Ea : atBlock (blockNumber a) a = true) by apply Z.eqb_refl.
        rewrite Ea in E.
        destruct (atBlock (blockNumber a) b) eqn:Eb.
        - apply Z.eqb_eq in Eb. lia.
        - symmetry in E. apply filter_atBlock_In in E. destruct E as [Hin _].
          apply (Hb a Hin). }
      assert (Heq : blockNumber a = blockNumber b) by lia.
      pose proof (Hf (blockNumber a)) as E. cbn [filter] in E.
      assert (Ea : atBlock (blockNumber a) a = true) by apply Z.eqb_refl.
      assert (Eb : atBlock (blockNumber a) b = true)
        by (unfold atBlock; rewrite Heq; apply Z.eqb_refl).
      rewrite Ea, Eb in E.
      injection E as Ehd Etl. subst b. f_equal.
      apply IH; try assumption.
      intros k. specialize (Hf k). cbn [filter] in Hf.
      destruct (atBlock k a) eqn:Ek.
      * apply Z.eqb_eq in Ek. subst k. exact Etl.
      * exact Hf.
Qed.

(** Any descending, tie-preserving arrangement of [l] is what [sort] returns. *)
Lemma sort_characterised (l s : list GameEvent) :
  mostRecentFirst s -> sameBlockwise l s -> Js.sort byBlockDesc l = s.
Proof.
  intros Hs Hb.
  apply stable_sorted_unique.
  - apply Sorted_StronglySorted; [exact newerOrSame_trans | apply sort_Sorted].
  - apply Sorted_StronglySorted; [exact newerOrSame_trans |].
    apply Sorted_mostRecentFirst, Hs.
  - intros k. rewrite (sort_sameBlockwise l k). symmetry. apply Hb.
Qed.

(** ** [slice(0, MAX_RESULTS)] *)

Lemma slice_cap (l : list GameEvent) :
  Js.slice 0 MAX_RESULTS l = firstn MAX_RESULTS l.
Proof. reflexivity. Qed.

Lemma firstn_mostRecentFirst (n : nat) (l : list GameEvent) :
  mostRecentFirst l -> mostRecentFirst (firstn n l).
Proof.
  intros H i a b Ha Hb.
  rewrite nth_error_firstn in Ha, Hb.
  destruct (Nat.ltb i n); [| discriminate].
  destruct (Nat.ltb (S i) n); [| discriminate].
  exact (H i a b Ha Hb).
Qed.

Lemma firstn_distinctHashes (n : nat) (l : list GameEvent) :
  distinctHashes l -> distinctHashes (firstn n l).
Proof.
  unfold distinctHashes. intros H.
  rewrite <- firstn_map.
  apply NoDup_app_remove_r with (l' := skipn n (map transactionHash l)).
  rewrite firstn_skipn. exact H.
Qed.

Lemma sorted_capped (l : list GameEvent) :
  capped (Js.slice 0 MAX_RESULTS (Js.sort byBlockDesc l)) /\
  mostRecentFirst (Js.slice 0 MAX_RESULTS (Js.sort byBlockDesc l)).
Proof.
  rewrite slice_cap. split.
  - apply firstn_le_length.
  - apply firstn_mostRecentFirst, Sorted_mostRecentFirst, sort_Sorted.
Qed.

(** ** The updater and the hash test *)

Lemma some_hasHash (h : string) (l : list GameEvent) :
  Js.some (fun e => String.eqb (transactionHash e) h) l = true <-> hasHash h l.
Proof.
  unfold Js.some, hasHash. rewrite existsb_exists.
  split; intros [r [Hin Hr]]; exists r; split; try assumption.
  - apply String.eqb_eq, Hr.
  - apply String.eqb_eq, Hr.
Qed.

Lemma eventsUpdater_present (e : GameEvent) (prev : list GameEvent) :
  hasHash (transactionHash e) prev -> eventsUpdater e prev = prev.
Proof.
  intros H. apply some_hasHash in H. unfold eventsUpdater. rewrite H. reflexivity.
Qed.

Lemma eventsUpdater_absent (e : GameEvent) (prev : list GameEvent) :
  ~ hasHash (transactionHash e) prev ->
  eventsUpdater e prev = firstn MAX_RESULTS (Js.sort byBlockDesc (e :: prev)).
Proof.
  intros H. unfold eventsUpdater.
  destruct (Js.some _ prev) eqn:Hs.
  - exfalso. apply H, some_hasHash, Hs.
  - apply slice_cap.
Qed.

Lemma eventsUpdater_keeps (e : GameEvent) (prev : list GameEvent) :
  capped prev -> mostRecentFirst prev ->
  capped (eventsUpdater e prev) /\ mostRecentFirst (eventsUpdater e prev).
Proof.
  intros Hc Hm. unfold eventsUpdater.
  destruct (Js.some _ prev).
  - split; assumption.
  - apply sorted_capped.
Qed.

(** A subscription insertion keeps the hashes of the list distinct. *)
Lemma eventsUpdater_distinctHashes (e : GameEvent) (prev : list GameEvent) :
  distinctHashes prev -> distinctHashes (eventsUpdater e prev).
Proof.
  intros Hd. unfold eventsUpdater.
  destruct (Js.some _ prev) eqn:Hs; [assumption |].
  rewrite slice_cap. apply firstn_distinctHashes.
  unfold distinctHashes.
  apply Permutation_NoDup with (l := map transactionHash (e :: prev)).
  - apply Permutation_map, Permutation_sym, sort_perm.
  - cbn [map]. constructor; [| exact Hd].
    intros Hin. apply in_map_iff in Hin. destruct Hin as [r [Hr Hin]].
    assert (Hh : hasHash (transactionHash e) prev) by (exists r; auto).
    apply some_hasHash in Hh. congruence.
Qed.

(** ** What [handleLog] and the first effect can pass to the setters *)

Lemma handleLogUpdates_inv (provider : Provider) (iface : Interface)
  (currentAccount : string) (isMounted : bool) (log : Log) (g : GameType)
  (u : Update) :
  In u (handleLogUpdates provider iface currentAccount isMounted log g) ->
  exists args b,
    parseLog iface (log_topics log) (log_data log) = Fulfilled (Some args) /\
    Js.toLowerCase (arg_player args) = Js.toLowerCase currentAccount /\
    getBlock provider (log_blockNumber log) = Fulfilled (Some b) /\
    isMounted = true /\
    u = mkUpdate false
          (SetEventsWith
             (gameEventOf log (Some args)
                (Some (Js.toLowerCase (arg_player args))) g b)).
Proof.
  unfold handleLogUpdates, handleLog, tryCatch, bind, sync, await, ret.
  destruct (parseLog iface (log_topics log) (log_data log)) as [[args|]|];
    cbn; try tauto.
  destruct (String.eqb (Js.toLowerCase (arg_player args))
              (Js.toLowerCase currentAccount)) eqn:Hp; cbn; try tauto.
  destruct (getBlock provider (log_blockNumber log)) as [[b|]|]; cbn; try tauto.
  destruct isMounted; cbn; try tauto.
  intros [<- | []]. exists args, b.
  apply String.eqb_eq in Hp. repeat split; auto.
Qed.

Lemma historyEffect_setters (isConnected : bool) (currentAccount : option string)
  (provider : Provider) (iface : Interface) (mD mC : Z -> bool) (mJ : bool)
  (u : Update) :
  In u (updates (historyEffect isConnected currentAccount provider iface mD mC mJ)) ->
  (exists b, setter u = SetLoading b) \/
  (exists m, setter u = SetError m) \/
  setter u = SetEvents [] \/
  (exists d c, setter u = SetEvents (allEvents d c)).
Proof.
  unfold historyEffect.
  destruct (guard isConnected currentAccount); cbn [updates].
  - intros [<- | [<- | []]]; cbn; eauto.
  - match goal with |- context [fst ?f] => destruct (fst f) as [[d c]|] end;
      destruct mJ; cbn;
      intuition (subst; cbn; eauto 6).
Qed.

Lemma emits_keeps (s : Setter) (st : State) :
  emits s ->
  capped (events st) -> mostRecentFirst (events st) ->
  capped (events (applySetter s st)) /\
  mostRecentFirst (events (applySetter s st)).
Proof.
  intros He Hc Hm. destruct He as [? ? ? ? ? ? ? u Hu | ? ? ? ? ? ? u Hu].
  - apply historyEffect_setters in Hu.
    destruct Hu as [[b E] | [[m E] | [E | [d [c E]]]]]; rewrite E; cbn.
    + split; assumption.
    + split; assumption.
    + split; [unfold capped, MAX_RESULTS; cbn; lia |].
      intros i a b Ha. destruct i; discriminate.
    + apply sorted_capped.
  - apply handleLogUpdates_inv in Hu.
    destruct Hu as [args [b [_ [_ [_ [_ E]]]]]]. rewrite E. cbn.
    apply eventsUpdater_keeps; assumption.
Qed.

(** C1. In every reachable state of the component the events list holds at
    most 12 records and is most-recent-first (of two adjacent records the
    first has the greater or equal blockNumber); the historical merge yields
    such a list and a subscription insertion keeps a list so. *)
Theorem events_capped_most_recent_first :
  (forall st, reachable st ->
     capped (events st) /\ mostRecentFirst (events st)) /\
  (forall diceEvents coinflipEvents,
     capped (allEvents diceEvents coinflipEvents) /\
     mostRecentFirst (allEvents diceEvents coinflipEvents)) /\
  (forall newEvent prev, capped prev -> mostRecentFirst prev ->
     capped (eventsUpdater newEvent prev) /\
     mostRecentFirst (eventsUpdater newEvent prev)).
Proof.
  split; [| split].
  - induction 1 as [| st s Hr IH He].
    + split; [unfold capped, MAX_RESULTS; cbn; lia |].
      intros i a b Ha. destruct i; discriminate.
    + destruct IH as [Hc Hm]. apply emits_keeps; assumption.
  - intros d c. apply sorted_capped.
  - intros e prev. apply eventsUpdater_keeps.
Qed.

(** The merge is the concatenation sorted by descending blockNumber, ties in
    their order of arrival, cut to its first 12 records. *)
Lemma allEvents_sorted_prefix (diceEvents coinflipEvents s : list GameEvent) :
  mostRecentFirst s ->
  sameBlockwise (diceEvents ++ coinflipEvents) s ->
  allEvents diceEvents coinflipEvents = firstn MAX_RESULTS s.
Proof.
  intros Hs Hb. unfold allEvents. rewrite slice_cap.
  f_equal. apply sort_characterised; assumption.
Qed.

(** The run of the first effect whose two fetches fulfil while the component
    is mounted: its setter calls and the state they leave. *)
Lemma history_fulfilled (isConnected : bool) (currentAccount : option string)
  (provider : Provider) (iface : Interface) (mD mC : Z -> bool) (st : State)
  (diceEvents coinflipEvents : list GameEvent) :
  guard isConnected currentAccount = false ->
  fst (fetchEventsForContract provider iface mD DICE_CONTRACT_ADDRESS dice)
  = Fulfilled diceEvents ->
  fst (fetchEventsForContract provider iface mC COINFLIP_CONTRACT_ADDRESS
         coinflip) = Fulfilled coinflipEvents ->
  map setter
    (updates (historyEffect isConnected currentAccount provider iface mD mC true))
  = [SetLoading true; SetError None;
     SetEvents (allEvents diceEvents coinflipEvents); SetLoading false] /\
  applyUpdates
    (updates (historyEffect isConnected currentAccount provider iface mD mC true))
    st
  = {| events := allEvents diceEvents coinflipEvents;
       loading := false; error := None |}.
Proof.
  intros G Hd Hc. unfold historyEffect. rewrite G.
  unfold promiseAll2. cbn [fst updates]. rewrite Hd, Hc.
  split; reflexivity.
Qed.

(** C3. For all lists of decoded dice and coinflip events that the two
    fetches return, the list the first effect passes to [setEvents], and the
    events list of the state afterwards, is the concatenation of the two,
    sorted by descending blockNumber (records of one block in their order of
    arrival), cut to its first 12 records. *)
Theorem history_stores_sorted_prefix (isConnected : bool)
  (currentAccount : option string) (provider : Provider) (iface : Interface)
  (mD mC : Z -> bool) (st : State)
  (diceEvents coinflipEvents s : list GameEvent) :
  guard isConnected currentAccount = false ->
  fst (fetchEventsForContract provider iface mD DICE_CONTRACT_ADDRESS dice)
  = Fulfilled diceEvents ->
  fst (fetchEventsForContract provider iface mC COINFLIP_CONTRACT_ADDRESS
         coinflip) = Fulfilled coinflipEvents ->
  mostRecentFirst s ->
  sameBlockwise (diceEvents ++ coinflipEvents) s ->
  map setter
    (updates (historyEffect isConnected currentAccount provider iface mD mC true))
  = [SetLoading true; SetError None; SetEvents (firstn MAX_RESULTS s);
     SetLoading false] /\
  events
    (applyUpdates
       (updates (historyEffect isConnected currentAccount provider iface
                   mD mC true)) st)
  = firstn MAX_RESULTS s.
Proof.
  intros G Hd Hc Hs Hb.
  destruct (history_fulfilled isConnected currentAccount provider iface mD mC
              st diceEvents coinflipEvents G Hd Hc) as [Hset Hst].
  rewrite Hset, Hst. cbn [events].
  rewrite (allEvents_sorted_prefix diceEvents coinflipEvents s Hs Hb).
  split; reflexivity.
Qed.

(** C4. For an incoming event and the current list: when a record of the
    list has the event's transactionHash the updater returns the list
    unchanged; otherwise it returns the event together with the list, sorted
    by descending blockNumber and cut to 12 records. *)
Theorem eventsUpdater_spec (newEvent : GameEvent) (prev : list GameEvent) :
  (hasHash (transactionHash newEvent) prev ->
     eventsUpdater newEvent prev = prev) /\
  (~ hasHash (transactionHash newEvent) prev ->
     forall s, mostRecentFirst s -> sameBlockwise (newEvent :: prev) s ->
       eventsUpdater newEvent prev = firstn MAX_RESULTS s).
Proof.
  split.
  - apply eventsUpdater_present.
  - intros Hn s Hs Hb. rewrite (eventsUpdater_absent _ _ Hn).
    f_equal. apply sort_characterised; assumption.
Qed.

(** ** The block ranges of the scan *)

Lemma startBlock_bounds (latestBlock : Z) :
  0 <= latestBlock ->
  0 <= startBlock latestBlock <= latestBlock /\
  0 <= totalBlocksToScan latestBlock <= TOTAL_BLOCKS_TO_CHECK.
Proof.
  unfold totalBlocksToScan, startBlock, Js.Math_max, TOTAL_BLOCKS_TO_CHECK. lia.
Qed.

Lemma chunksNeeded_spec (latestBlock : Z) :
  MAX_CHUNK_SIZE * (chunksNeeded latestBlock - 1) < totalBlocksToScan latestBlock
  /\ totalBlocksToScan latestBlock <= MAX_CHUNK_SIZE * chunksNeeded latestBlock.
Proof.
  unfold chunksNeeded, Js.Math_ceil_div, MAX_CHUNK_SIZE.
  pose proof (Z.div_mod (- totalBlocksToScan latestBlock) 450 ltac:(lia)).
  pose proof (Z.mod_pos_bound (- totalBlocksToScan latestBlock) 450 ltac:(lia)).
  lia.
Qed.

Lemma chunksNeeded_range (latestBlock : Z) :
  0 <= latestBlock -> 0 <= chunksNeeded latestBlock <= 5.
Proof.
  intros H. pose proof (chunksNeeded_spec latestBlock).
  pose proof (startBlock_bounds latestBlock H).
  unfold MAX_CHUNK_SIZE, TOTAL_BLOCKS_TO_CHECK in *. lia.
Qed.

(** Every query range lies in the window and is not empty. *)
Lemma chunk_within_window (latestBlock i : Z) :
  0 <= latestBlock -> 0 <= i < chunksNeeded latestBlock ->
  startBlock latestBlock <= fromBlock latestBlock i /\
  fromBlock latestBlock i < toBlock latestBlock i /\
  toBlock latestBlock i <= latestBlock.
Proof.
  intros HL Hi. pose proof (chunksNeeded_spec latestBlock).
  unfold fromBlock, toBlock, chunkStart, chunkEnd, totalBlocksToScan,
    Js.Math_max, MAX_CHUNK_SIZE in *.
  lia.
Qed.

(** A range that is not the last spans [MAX_CHUNK_SIZE] block numbers, so it
    holds [MAX_CHUNK_SIZE + 1] blocks; the last one is clamped. *)
Lemma chunk_span (latestBlock i : Z) :
  0 <= latestBlock -> 0 <= i < chunksNeeded latestBlock ->
  toBlock latestBlock i - fromBlock latestBlock i <= MAX_CHUNK_SIZE /\
  (i + 1 < chunksNeeded latestBlock ->
   toBlock latestBlock i - fromBlock latestBlock i = MAX_CHUNK_SIZE).
Proof.
  intros HL Hi. pose proof (chunksNeeded_spec latestBlock).
  unfold fromBlock, toBlock, chunkStart, chunkEnd, totalBlocksToScan,
    Js.Math_max, MAX_CHUNK_SIZE in *.
  lia.
Qed.

(** Consecutive ranges share their boundary block. *)
Lemma chunk_boundary_shared (latestBlock i : Z) :
  0 <= latestBlock -> 0 <= i -> i + 1 < chunksNeeded latestBlock ->
  fromBlock latestBlock i = toBlock latestBlock (i + 1) /\
  inChunk latestBlock i (fromBlock latestBlock i) /\
  inChunk latestBlock (i + 1) (fromBlock latestBlock i).
Proof.
  intros HL Hi Hn. pose proof (chunksNeeded_spec latestBlock).
  unfold inChunk, fromBlock, toBlock, chunkStart, chunkEnd, totalBlocksToScan,
    Js.Math_max, MAX_CHUNK_SIZE in *.
  lia.
Qed.

(** From block 1 on, the ranges cover the window. *)
Lemma chunks_cover_window (latestBlock b : Z) :
  1 <= latestBlock -> inWindow latestBlock b ->
  exists i, 0 <= i < chunksNeeded latestBlock /\ inChunk latestBlock i b.
Proof.
  intros HL Hb. pose proof (chunksNeeded_spec latestBlock) as Hn.
  unfold inWindow in Hb.
  assert (Hq : 0 <= (latestBlock - b) / MAX_CHUNK_SIZE)
    by (apply Z.div_pos; unfold MAX_CHUNK_SIZE; lia).
  pose proof (Z.div_mod (latestBlock - b) MAX_CHUNK_SIZE
                ltac:(unfold MAX_CHUNK_SIZE; lia)) as Hd.
  pose proof (Z.mod_pos_bound (latestBlock - b) MAX_CHUNK_SIZE
                ltac:(unfold MAX_CHUNK_SIZE; lia)) as Hm.
  set (q := (latestBlock - b) / MAX_CHUNK_SIZE) in *.
  set (r := (latestBlock - b) mod MAX_CHUNK_SIZE) in *.
  destruct (Z_lt_ge_dec q (chunksNeeded latestBlock)) as [Hlt | Hge].
  - exists q. split; [lia |].
    unfold inChunk, fromBlock, toBlock, chunkStart, chunkEnd, totalBlocksToScan,
      startBlock, Js.Math_max, MAX_CHUNK_SIZE, TOTAL_BLOCKS_TO_CHECK in *.
    lia.
  - exists (chunksNeeded latestBlock - 1).
    unfold inChunk, fromBlock, toBlock, chunkStart, chunkEnd, totalBlocksToScan,
      startBlock, Js.Math_max, MAX_CHUNK_SIZE, TOTAL_BLOCKS_TO_CHECK in *.
    lia.
Qed.

(** At block 0 the scan makes no query, and block 0 stays unread. *)
Lemma no_chunk_at_genesis : chunkIndices 0 = [] /\ inWindow 0 0.
Proof. split; [reflexivity | unfold inWindow; cbn; lia]. Qed.

Lemma In_upFrom (n : nat) (i j : Z) :
  In j (upFrom i n) <-> i <= j < i + Z.of_nat n.
Proof.
  revert i. induction n as [|n IH]; intros i.
  - cbn. lia.
  - cbn [upFrom In]. rewrite IH. lia.
Qed.

Lemma In_chunkIndices (latestBlock i : Z) :
  In i (chunkIndices latestBlock) <-> 0 <= i < chunksNeeded latestBlock.
Proof.
  unfold chunkIndices. rewrite In_upFrom. lia.
Qed.

(** ** The scan loop and the parse loop in closed form *)

Section ScanFacts.

Variable provider : Provider.
Variable iface : Interface.
Variable contractAddress : string.
Variable gameType : GameType.

(** While the component stays mounted the loop runs every iteration, makes
    one [getLogs] call per iteration, and a failing call adds nothing. *)
Lemma scanChunks_mounted (isMounted : Z -> bool) (latestBlock : Z) :
  (forall j, isMounted j = true) ->
  forall todo i allLogs,
    scanChunks provider isMounted contractAddress latestBlock todo i allLogs =
    (Fulfilled
       (allLogs ++
        flat_map (chunkLogs provider contractAddress latestBlock) (upFrom i todo)),
     map (chunkCall contractAddress latestBlock) (upFrom i todo)).
Proof.
  intros Hm. induction todo as [|todo IH]; intros i allLogs.
  - cbn. rewrite app_nil_r. reflexivity.
  - cbn [scanChunks upFrom flat_map map]. rewrite Hm.
    unfold bind, tryCatch, await, ret, chunkLogs at 1, chunkCall at 1. cbn.
    destruct (getLogs provider contractAddress (fromBlock latestBlock i)
                (toBlock latestBlock i)) as [logs|]; cbn; rewrite IH; cbn.
    + rewrite <- app_assoc. reflexivity.
    + reflexivity.
Qed.

(** Whatever the flag does, a failing [getLogs] call is as good as one that
    returns no logs: same logs collected, same calls made. *)
Lemma scanChunks_quiet (isMounted : Z -> bool) (latestBlock : Z) :
  forall todo i allLogs,
    scanChunks provider isMounted contractAddress latestBlock todo i allLogs =
    scanChunks (quiet provider) isMounted contractAddress latestBlock todo i
      allLogs.
Proof.
  induction todo as [|todo IH]; intros i allLogs; [reflexivity |].
  cbn [scanChunks]. destruct (isMounted i); [| reflexivity].
  unfold bind, tryCatch, await, ret. cbn.
  destruct (getLogs provider contractAddress (fromBlock latestBlock i)
              (toBlock latestBlock i)) as [logs|]; cbn; rewrite IH.
  - reflexivity.
  - rewrite app_nil_r. reflexivity.
Qed.

(** The scan itself never rejects. *)
Lemma scanChunks_fulfils (isMounted : Z -> bool) (latestBlock : Z) :
  forall todo i allLogs, exists logs,
    fst (scanChunks provider isMounted contractAddress latestBlock todo i allLogs)
    = Fulfilled logs.
Proof.
  induction todo as [|todo IH]; intros i allLogs; [eexists; reflexivity |].
  cbn [scanChunks]. destruct (isMounted i); [| eexists; reflexivity].
  unfold bind, tryCatch, await, ret. cbn.
  destruct (getLogs provider contractAddress (fromBlock latestBlock i)
              (toBlock latestBlock i)) as [logs|]; cbn.
  - destruct (IH (i + 1) (allLogs ++ logs)) as [r Hr]. rewrite Hr. eauto.
  - destruct (IH (i + 1) allLogs) as [r Hr]. rewrite Hr. eauto.
Qed.

Lemma parseOne_fulfils (log : Log) :
  fst (parseOne provider iface gameType log)
  = Fulfilled (recordsOf provider iface gameType log).
Proof.
  unfold recordsOf, parseOne, tryCatch, bind, sync, await, ret.
  destruct (parseLog iface (log_topics log) (log_data log)) as [p|]; cbn;
    [| reflexivity].
  destruct (getBlock provider (log_blockNumber log)) as [[b|]|]; reflexivity.
Qed.

Lemma parseLogs_closed (allLogs : list Log) :
  forall parsedEvents,
    parseLogs provider iface gameType allLogs parsedEvents =
    (Fulfilled
       (parsedEvents ++ flat_map (recordsOf provider iface gameType) allLogs),
     flat_map (callsOf provider iface gameType) allLogs).
Proof.
  induction allLogs as [|log rest IH]; intros parsedEvents.
  - cbn. rewrite app_nil_r. reflexivity.
  - cbn [parseLogs flat_map]. unfold bind.
    rewrite parseOne_fulfils, IH. cbn.
    rewrite <- app_assoc. reflexivity.
Qed.

(** The records of a log: none when decoding throws or the block lookup
    throws or returns [null], one otherwise. *)
Lemma recordsOf_cases (log : Log) :
  recordsOf provider iface gameType log =
  match parseLog iface (log_topics log) (log_data log),
        getBlock provider (log_blockNumber log) with
  | Fulfilled parsedLog, Fulfilled (Some b) =>
      [gameEventOf log parsedLog (playerOf parsedLog) gameType b]
  | _, _ => []
  end.
Proof.
  unfold recordsOf, parseOne, tryCatch, bind, sync, await, ret.
  destruct (parseLog iface (log_topics log) (log_data log)) as [p|]; cbn;
    [| reflexivity].
  destruct (getBlock provider (log_blockNumber log)) as [[b|]|]; reflexivity.
Qed.

(** At most one block lookup per log, none when decoding throws. *)
Lemma callsOf_cases (log : Log) :
  callsOf provider iface gameType log =
  match parseLog iface (log_topics log) (log_data log) with
  | Fulfilled _ => [CallGetBlock (log_blockNumber log)]
  | Rejected => []
  end.
Proof.
  unfold callsOf, parseOne, tryCatch, bind, sync, await, ret.
  destruct (parseLog iface (log_topics log) (log_data log)) as [p|]; cbn;
    [| reflexivity].
  destruct (getBlock provider (log_blockNumber log)) as [[b|]|]; reflexivity.
Qed.

(** [fetchEventsForContract] rejects exactly when [getBlockNumber] does. *)
Lemma fetch_rejects_iff (isMounted : Z -> bool) :
  fst (fetchEventsForContract provider iface isMounted contractAddress gameType)
  = Rejected
  <-> getBlockNumber provider = Rejected.
Proof.
  unfold fetchEventsForContract, bind at 1, await. cbn.
  destruct (getBlockNumber provider) as [latestBlock|]; cbn; [| tauto].
  unfold bind.
  destruct (scanChunks_fulfils isMounted latestBlock
              (Z.to_nat (chunksNeeded latestBlock)) 0 []) as [logs Hl].
  rewrite Hl, parseLogs_closed. cbn. split; discriminate.
Qed.

(** The fetch of a mounted component, in closed form. *)
Lemma fetch_mounted (isMounted : Z -> bool) (latestBlock : Z) :
  (forall j, isMounted j = true) ->
  getBlockNumber provider = Fulfilled latestBlock ->
  let allLogs :=
    flat_map (chunkLogs provider contractAddress latestBlock)
      (chunkIndices latestBlock) in
  fetchEventsForContract provider iface isMounted contractAddress gameType =
  (Fulfilled (flat_map (recordsOf provider iface gameType) allLogs),
   CallGetBlockNumber
   :: map (chunkCall contractAddress latestBlock) (chunkIndices latestBlock)
   ++ flat_map (callsOf provider iface gameType) allLogs).
Proof.
  intros Hm HL allLogs.
  unfold fetchEventsForContract, bind at 1, await. rewrite HL. cbn.
  unfold bind. rewrite (scanChunks_mounted isMounted latestBlock Hm).
  cbn. rewrite parseLogs_closed. reflexivity.
Qed.

End ScanFacts.

(** For any reads of the flag the loop runs a first stretch of its
    iterations, one [getLogs] call each. *)
Lemma scanChunks_prefix (provider : Provider) (isMounted : Z -> bool)
  (contractAddress : string) (latestBlock : Z) :
  forall todo i allLogs, exists k,
    (k <= todo)%nat /\
    scanChunks provider isMounted contractAddress latestBlock todo i allLogs =
    (Fulfilled
       (allLogs ++
        flat_map (chunkLogs provider contractAddress latestBlock) (upFrom i k)),
     map (chunkCall contractAddress latestBlock) (upFrom i k)).
Proof.
  induction todo as [|todo IH]; intros i allLogs.
  - exists 0%nat. cbn. rewrite app_nil_r. auto.
  - cbn [scanChunks]. destruct (isMounted i).
    + unfold bind, tryCatch, await, ret. cbn.
      destruct (getLogs provider contractAddress (fromBlock latestBlock i)
                  (toBlock latestBlock i)) as [logs|] eqn:Hg; cbn.
      * destruct (IH (i + 1) (allLogs ++ logs)) as [k [Hk E]].
        exists (S k). split; [lia |]. rewrite E. cbn.
        unfold chunkLogs at 2. rewrite Hg. rewrite <- app_assoc. reflexivity.
      * destruct (IH (i + 1) allLogs) as [k [Hk E]].
        exists (S k). split; [lia |]. rewrite E. cbn.
        unfold chunkLogs at 2. rewrite Hg. reflexivity.
    + exists 0%nat. cbn. rewrite app_nil_r. split; [lia | reflexivity].
Qed.

Lemma fetch_shape (provider : Provider) (iface : Interface)
  (isMounted : Z -> bool) (contractAddress : string) (g : GameType)
  (latestBlock : Z) :
  getBlockNumber provider = Fulfilled latestBlock ->
  exists k,
    (k <= Z.to_nat (chunksNeeded latestBlock))%nat /\
    fetchEventsForContract provider iface isMounted contractAddress g =
    (Fulfilled
       (flat_map (recordsOf provider iface g)
          (flat_map (chunkLogs provider contractAddress latestBlock)
             (upFrom 0 k))),
     CallGetBlockNumber
     :: map (chunkCall contractAddress latestBlock) (upFrom 0 k)
     ++ flat_map (callsOf provider iface g)
          (flat_map (chunkLogs provider contractAddress latestBlock)
             (upFrom 0 k))).
Proof.
  intros HL.
  destruct (scanChunks_prefix provider isMounted contractAddress latestBlock
              (Z.to_nat (chunksNeeded latestBlock)) 0 []) as [k [Hk E]].
  exists k. split; [exact Hk |].
  unfold fetchEventsForContract, bind at 1, await. rewrite HL. cbn.
  unfold bind. rewrite E. cbn. rewrite parseLogs_closed. reflexivity.
Qed.

(** ** The subscription handler *)

(** C5. When the decoded player of a delivered log differs, lower-cased,
    from the lower-cased connected account, [handleLog] returns at once: no
    block lookup, no setter call, the state as it was. Every setter call of
    [handleLog] comes from a log whose player equals the connected account
    after lower-casing both. *)
Theorem handleLog_filters_by_account (provider : Provider) (iface : Interface)
  (currentAccount : string) (isMounted : bool) (log : Log) (g : GameType) :
  (forall args,
     parseLog iface (log_topics log) (log_data log) = Fulfilled (Some args) ->
     Js.toLowerCase (arg_player args) <> Js.toLowerCase currentAccount ->
     handleLog provider iface currentAccount isMounted log g = (Fulfilled [], [])
     /\ forall st,
          applyUpdates
            (handleLogUpdates provider iface currentAccount isMounted log g) st
          = st) /\
  (forall u,
     In u (handleLogUpdates provider iface currentAccount isMounted log g) ->
     exists args e,
       parseLog iface (log_topics log) (log_data log) = Fulfilled (Some args) /\
       Js.toLowerCase (arg_player args) = Js.toLowerCase currentAccount /\
       setter u = SetEventsWith e /\
       player e = Some (Js.toLowerCase currentAccount)).
Proof.
  split.
  - intros args Hp Hne.
    assert (E : handleLog provider iface currentAccount isMounted log g
                = (Fulfilled [], [])).
    { unfold handleLog, tryCatch, bind, sync, await, ret. rewrite Hp. cbn.
      destruct (String.eqb_spec (Js.toLowerCase (arg_player args))
                  (Js.toLowerCase currentAccount)) as [Heq | _];
        [contradiction | reflexivity]. }
    split; [exact E |].
    intros st. unfold handleLogUpdates. rewrite E. reflexivity.
  - intros u Hu. apply handleLogUpdates_inv in Hu.
    destruct Hu as [args [b [Hp [Hl [_ [_ E]]]]]].
    exists args. eexists. repeat split; try eassumption.
    + rewrite E. reflexivity.
    + cbn. rewrite Hl. reflexivity.
Qed.

(** A log whose decoding returns [null] or throws is dropped as well. *)
Lemma handleLog_undecoded (provider : Provider) (iface : Interface)
  (currentAccount : string) (isMounted : bool) (log : Log) (g : GameType) :
  parseLog iface (log_topics log) (log_data log) = Fulfilled None \/
  parseLog iface (log_topics log) (log_data log) = Rejected ->
  handleLogUpdates provider iface currentAccount isMounted log g = [].
Proof.
  unfold handleLogUpdates, handleLog, tryCatch, bind, sync, await, ret.
  intros [E | E]; rewrite E; reflexivity.
Qed.

(** ** The guard of both effects *)

(** C9. With the wallet not connected, or with no active account, the first
    effect sets the events list to empty and loading to false and makes no
    call to the node, and the second effect registers no listener. *)
Theorem disconnected_is_idle (isConnected : bool)
  (currentAccount : option string) (provider : Provider) (iface : Interface)
  (mD mC : Z -> bool) (mJ : bool) (st : State) :
  isConnected = false \/ currentAccount = None ->
  let run := historyEffect isConnected currentAccount provider iface mD mC mJ in
  let sub := subscriptionEffect isConnected currentAccount in
  map setter (updates run) = [SetEvents []; SetLoading false] /\
  events (applyUpdates (updates run) st) = [] /\
  loading (applyUpdates (updates run) st) = false /\
  rpc run = [] /\
  listeners sub = [] /\ rpc sub = [] /\ updates sub = [].
Proof.
  intros H.
  assert (G : guard isConnected currentAccount = true).
  { unfold guard. destruct H as [-> | ->]; cbn; [reflexivity |].
    apply orb_true_r. }
  cbv zeta. unfold historyEffect, subscriptionEffect. rewrite G. cbn.
  repeat split; reflexivity.
Qed.

(** With a connected account both listeners are registered. *)
Lemma connected_subscribes (currentAccount : string) :
  currentAccount <> "" ->
  listeners (subscriptionEffect true (Some currentAccount))
  = [DICE_CONTRACT_ADDRESS; COINFLIP_CONTRACT_ADDRESS].
Proof.
  intros H. unfold subscriptionEffect, guard. cbn.
  destruct (String.eqb_spec currentAccount ""); [contradiction | reflexivity].
Qed.

(** ** Failures *)

Lemma fetch_quiet (provider : Provider) (iface : Interface)
  (isMounted : Z -> bool) (contractAddress : string) (g : GameType) :
  fetchEventsForContract provider iface isMounted contractAddress g =
  fetchEventsForContract (quiet provider) iface isMounted contractAddress g.
Proof.
  unfold fetchEventsForContract, bind at 1 3, await. cbn.
  destruct (getBlockNumber provider) as [latestBlock|]; cbn; [| reflexivity].
  unfold bind. rewrite <- scanChunks_quiet.
  destruct (scanChunks provider isMounted contractAddress latestBlock
              (Z.to_nat (chunksNeeded latestBlock)) 0 []) as [[logs|] calls];
    cbn; [| reflexivity].
  rewrite !parseLogs_closed. reflexivity.
Qed.

Lemma parseLogs_drop (provider : Provider) (iface : Interface) (g : GameType)
  (before after : list Log) (log : Log) (parsedEvents : list GameEvent) :
  recordsOf provider iface g log = [] ->
  fst (parseLogs provider iface g (before ++ log :: after) parsedEvents) =
  fst (parseLogs provider iface g (before ++ after) parsedEvents).
Proof.
  intros H. rewrite !parseLogs_closed. cbn [fst].
  rewrite !flat_map_app. cbn [flat_map]. rewrite H. reflexivity.
Qed.

Lemma history_rejected (isConnected : bool) (currentAccount : option string)
  (provider : Provider) (iface : Interface) (mD mC : Z -> bool) (mJ : bool) :
  guard isConnected currentAccount = false ->
  getBlockNumber provider = Rejected ->
  historyEffect isConnected currentAccount provider iface mD mC mJ =
  {| updates := [mkUpdate false (SetLoading true); mkUpdate false (SetError None);
                 mkUpdate (negb mJ) (SetError failedToFetch);
                 mkUpdate (negb mJ) (SetLoading false)];
     rpc := [CallGetBlockNumber; CallGetBlockNumber];
     listeners := [] |}.
Proof.
  intros G E. unfold historyEffect. rewrite G.
  unfold promiseAll2, fetchEventsForContract, bind, await. rewrite E. reflexivity.
Qed.

(** C7, amended. A [getLogs] call that throws adds no logs and the scan goes
    on as after a call that returned none: the fetch equals the fetch from
    the node with failing chunks answered by no logs, and while mounted it
    queries every chunk exactly once. A log whose decoding throws, or whose
    block lookup returns null (or throws), contributes no record and the logs
    around it are processed as without it, with at most one block lookup for
    it. When the joined fetch rejects, the one message 'Failed to fetch
    events' is stored in the error state, loading is set to false and the
    events are left alone; what the component then renders is the fixed text
    'Error', not the message. Nothing is retried: the calls of the run are
    those of the two scans, and a scan that rejects has made its one
    [getBlockNumber] call only. *)
Theorem failures_are_skipped :
  (forall provider iface isMounted contractAddress g,
     fetchEventsForContract provider iface isMounted contractAddress g =
     fetchEventsForContract (quiet provider) iface isMounted contractAddress g) /\
  (forall provider iface isMounted contractAddress g latestBlock,
     (forall j, isMounted j = true) ->
     getBlockNumber provider = Fulfilled latestBlock ->
     let allLogs :=
       flat_map (chunkLogs provider contractAddress latestBlock)
         (chunkIndices latestBlock) in
     fetchEventsForContract provider iface isMounted contractAddress g =
     (Fulfilled (flat_map (recordsOf provider iface g) allLogs),
      CallGetBlockNumber
      :: map (chunkCall contractAddress latestBlock) (chunkIndices latestBlock)
      ++ flat_map (callsOf provider iface g) allLogs)) /\
  (forall provider iface g before log after parsedEvents,
     parseLog iface (log_topics log) (log_data log) = Rejected \/
     getBlock provider (log_blockNumber log) = Fulfilled None \/
     getBlock provider (log_blockNumber log) = Rejected ->
     fst (parseLogs provider iface g (before ++ log :: after) parsedEvents) =
     fst (parseLogs provider iface g (before ++ after) parsedEvents) /\
     (List.length (callsOf provider iface g log) <= 1)%nat) /\
  (forall isConnected currentAccount provider iface mD mC mJ st,
     guard isConnected currentAccount = false ->
     fst (fetchEventsForContract provider iface mD DICE_CONTRACT_ADDRESS dice)
       = Rejected \/
     fst (fetchEventsForContract provider iface mC COINFLIP_CONTRACT_ADDRESS
            coinflip) = Rejected ->
     let run :=
       historyEffect isConnected currentAccount provider iface mD mC mJ in
     map setter (updates run) =
       [SetLoading true; SetError None; SetError failedToFetch;
        SetLoading false] /\
     error (applyUpdates (updates run) st) = failedToFetch /\
     loading (applyUpdates (updates run) st) = false /\
     events (applyUpdates (updates run) st) = events st /\
     render (applyUpdates (updates run) st) = ErrorView "Error" /\
     rpc run =
       snd (fetchEventsForContract provider iface mD DICE_CONTRACT_ADDRESS dice)
       ++ snd (fetchEventsForContract provider iface mC
                 COINFLIP_CONTRACT_ADDRESS coinflip) /\
     (fst (fetchEventsForContract provider iface mD DICE_CONTRACT_ADDRESS dice)
      = Rejected ->
      snd (fetchEventsForContract provider iface mD DICE_CONTRACT_ADDRESS dice)
      = [CallGetBlockNumber]) /\
     (fst (fetchEventsForContract provider iface mC COINFLIP_CONTRACT_ADDRESS
             coinflip) = Rejected ->
      snd (fetchEventsForContract provider iface mC COINFLIP_CONTRACT_ADDRESS
             coinflip) = [CallGetBlockNumber])).
Proof.
  split; [| split; [| split]].
  - apply fetch_quiet.
  - intros. apply fetch_mounted; assumption.
  - intros provider iface g before log after parsedEvents H. split.
    + apply parseLogs_drop. rewrite recordsOf_cases.
      destruct H as [E | [E | E]]; rewrite E; [reflexivity | |];
        destruct (parseLog iface (log_topics log) (log_data log)); reflexivity.
    + rewrite callsOf_cases.
      destruct (parseLog iface (log_topics log) (log_data log)); cbn; lia.
  - intros isConnected currentAccount provider iface mD mC mJ st G H.
    assert (E : getBlockNumber provider = Rejected).
    { destruct H as [H | H]; apply fetch_rejects_iff in H; exact H. }
    assert (F : forall m a g,
               fetchEventsForContract provider iface m a g
               = (Rejected, [CallGetBlockNumber])).
    { intros m a g. unfold fetchEventsForContract, bind, await.
      rewrite E. reflexivity. }
    cbv zeta. rewrite (history_rejected _ _ _ _ mD mC mJ G E). rewrite !F.
    repeat split; intros; reflexivity.
Qed.

(** C7 as stated fails where the joined fetch rejects: the message 'Failed to
    fetch events' goes into the error state, and what the component renders
    is the fixed text 'Error', never the message. *)
Lemma failure_message_not_rendered :
  fst (promiseAll2
         (fetchEventsForContract failingNode dataIsPlayer alwaysMounted
            DICE_CONTRACT_ADDRESS dice)
         (fetchEventsForContract failingNode dataIsPlayer alwaysMounted
            COINFLIP_CONTRACT_ADDRESS coinflip)) = Rejected /\
  error
    (applyUpdates
       (updates (historyEffect true (Some account) failingNode dataIsPlayer
                   alwaysMounted alwaysMounted true))
       initialState) = Some "Failed to fetch events" /\
  render
    (applyUpdates
       (updates (historyEffect true (Some account) failingNode dataIsPlayer
                   alwaysMounted alwaysMounted true))
       initialState) = ErrorView "Error" /\
  render
    (applyUpdates
       (updates (historyEffect true (Some account) failingNode dataIsPlayer
                   alwaysMounted alwaysMounted true))
       initialState) <> ErrorView "Failed to fetch events".
Proof.
  repeat split; try reflexivity.
  intros H. vm_compute in H. discriminate H.
Qed.

(** ** Runs that depart from the description *)

(** C6, at latest block 2000: the five query ranges are [1550, 2000],
    [1100, 1550], [650, 1100], [200, 650] and [0, 200]; block 1550 lies in
    the first and in the second, which both hold 451 blocks. *)
Theorem scan_ranges_share_blocks :
  snd (fetchEventsForContract (nodeOver 2000 emptyChain) dataIsPlayer
         alwaysMounted DICE_CONTRACT_ADDRESS dice) =
  [CallGetBlockNumber;
   CallGetLogs DICE_CONTRACT_ADDRESS 1550 2000;
   CallGetLogs DICE_CONTRACT_ADDRESS 1100 1550;
   CallGetLogs DICE_CONTRACT_ADDRESS 650 1100;
   CallGetLogs DICE_CONTRACT_ADDRESS 200 650;
   CallGetLogs DICE_CONTRACT_ADDRESS 0 200] /\
  inChunk 2000 0 1550 /\ inChunk 2000 1 1550 /\
  toBlock 2000 0 - fromBlock 2000 0 + 1 = 451.
Proof.
  split; [reflexivity |].
  unfold inChunk. cbn. lia.
Qed.

(** C2, at latest block 2000 with one Roll log in block 1550: the log is
    returned by the first and by the second chunk query, and the list stored
    by the historical path holds its record twice. *)
Theorem history_stores_hash_twice :
  events
    (applyUpdates
       (updates (historyEffect true (Some account)
                   (nodeOver 2000 boundaryChain) dataIsPlayer
                   alwaysMounted alwaysMounted true))
       initialState)
  = [sampleEvent 1550 "0xaa"; sampleEvent 1550 "0xaa"] /\
  ~ distinctHashes [sampleEvent 1550 "0xaa"; sampleEvent 1550 "0xaa"].
Proof.
  split; [reflexivity |].
  unfold distinctHashes. cbn. intros H.
  inversion H as [| ? ? Hn _]. apply Hn. left. reflexivity.
Qed.

(** The merge itself tests no hash: two records of one transaction, one from
    each contract, both stay. *)
Lemma allEvents_keeps_equal_hashes (a b : GameEvent) :
  transactionHash a = transactionHash b ->
  ~ distinctHashes (allEvents [a] [b]).
Proof.
  intros E H. unfold allEvents in H. rewrite slice_cap in H.
  unfold distinctHashes in H. cbn in H.
  destruct (0 <? byBlockDesc a b); cbn in H;
    inversion H as [| ? ? Hn _]; apply Hn; left; congruence.
Qed.

(** C8, with the teardown before the joined fetch settles: [setLoading(false)]
    is called all the same, and after a rejected fetch [setError] as well. *)
Theorem setters_called_after_teardown :
  updates (historyEffect true (Some account) (nodeOver 2000 emptyChain)
             dataIsPlayer alwaysMounted alwaysMounted false)
  = [mkUpdate false (SetLoading true); mkUpdate false (SetError None);
     mkUpdate true (SetLoading false)] /\
  updates (historyEffect true (Some account) failingNode
             dataIsPlayer alwaysMounted alwaysMounted false)
  = [mkUpdate false (SetLoading true); mkUpdate false (SetError None);
     mkUpdate true (SetError failedToFetch);
     mkUpdate true (SetLoading false)].
Proof. split; reflexivity. Qed.

(** Every run of the first effect that is torn down before the join calls
    [setLoading(false)] after the teardown. *)
Lemma history_updates_after_teardown (currentAccount : option string)
  (provider : Provider) (iface : Interface) (mD mC : Z -> bool) :
  guard true currentAccount = false ->
  In (mkUpdate true (SetLoading false))
     (updates (historyEffect true currentAccount provider iface mD mC false)).
Proof.
  intros G. unfold historyEffect. rewrite G. cbn [updates negb].
  apply in_or_app. right. apply in_or_app. right. left. reflexivity.
Qed.

(** The guarded calls: [setEvents] of either path is never called after the
    teardown. *)
Lemma setEvents_only_while_mounted :
  (forall isConnected currentAccount provider iface mD mC mJ u l,
     In u (updates (historyEffect isConnected currentAccount provider iface
                      mD mC mJ)) ->
     setter u = SetEvents l -> afterTeardown u = false) /\
  (forall provider iface currentAccount isMounted log g u,
     In u (handleLogUpdates provider iface currentAccount isMounted log g) ->
     afterTeardown u = false /\ isMounted = true).
Proof.
  split.
  - intros isConnected currentAccount provider iface mD mC mJ u l.
    unfold historyEffect.
    destruct (guard isConnected currentAccount); cbn [updates].
    + intros [<- | [<- | []]]; reflexivity.
    + match goal with |- context [fst ?f] => destruct (fst f) as [[d c]|] end;
        destruct mJ; cbn; intuition (subst; cbn in *; congruence).
  - intros provider iface currentAccount isMounted log g u Hu.
    apply handleLogUpdates_inv in Hu.
    destruct Hu as [args [b [_ [_ [_ [Hm E]]]]]]. rewrite E. auto.
Qed.

(** C10 as stated fails at latest block 2000 with thirteen decodable Roll
    logs in blocks 1988 to 2000: the log of block 1988 is in the window, is
    returned by the first chunk query, decodes and has its block, and yet the
    initial list, twelve records long, does not hold its record. *)
Lemma decoded_log_left_out :
  In (logAt 1988 "0xa" stranger) (busyChain DICE_CONTRACT_ADDRESS) /\
  inWindow 2000 1988 /\ inChunk 2000 0 1988 /\
  recordsOf (nodeOver 2000 busyChain) dataIsPlayer dice
    (logAt 1988 "0xa" stranger) = [sampleEvent 1988 "0xa"] /\
  List.length
    (events
       (applyUpdates
          (updates (historyEffect true (Some account)
                      (nodeOver 2000 busyChain) dataIsPlayer
                      alwaysMounted alwaysMounted true))
          initialState)) = 12%nat /\
  ~ In (sampleEvent 1988 "0xa")
      (events
         (applyUpdates
            (updates (historyEffect true (Some account)
                        (nodeOver 2000 busyChain) dataIsPlayer
                        alwaysMounted alwaysMounted true))
            initialState)).
Proof.
  split; [left; reflexivity |].
  split; [unfold inWindow; cbn; lia |].
  split; [unfold inChunk; cbn; lia |].
  split; [reflexivity |].
  split; [reflexivity |].
  intros H. apply (in_map blockNumber) in H.
  vm_compute in H.
  repeat (destruct H as [H | H]; [discriminate H |]).
  exact H.
Qed.

(** ** Who gets into the initial list *)

Lemma StronglySorted_app_cross (l1 l2 : list GameEvent) (a b : GameEvent) :
  StronglySorted newerOrSame (l1 ++ l2) -> In a l1 -> In b l2 ->
  newerOrSame a b.
Proof.
  induction l1 as [|x t IH]; intros Hs Ha Hb; [contradiction |].
  cbn in Hs. inversion Hs as [|? ? Ht Hx]; subst.
  destruct Ha as [-> | Ha].
  - rewrite Forall_forall in Hx. apply Hx, in_or_app. right. exact Hb.
  - apply IH; assumption.
Qed.

Lemma allEvents_subset (d c : list GameEvent) (e : GameEvent) :
  In e (allEvents d c) -> In e (d ++ c).
Proof.
  unfold allEvents. rewrite slice_cap. intros H.
  apply (Permutation_in e (sort_perm (d ++ c))).
  rewrite <- (firstn_skipn MAX_RESULTS (Js.sort byBlockDesc (d ++ c))).
  apply in_or_app. left. exact H.
Qed.

Lemma fetched_record_of_call (provider : Provider) (iface : Interface)
  (isMounted : Z -> bool) (contractAddress : string) (g : GameType)
  (a : string) (lo hi : Z) (logs : list Log) (log : Log) (args : RollArgs)
  (b : Block) :
  In (CallGetLogs a lo hi)
     (snd (fetchEventsForContract provider iface isMounted contractAddress g)) ->
  getLogs provider a lo hi = Fulfilled logs ->
  In log logs ->
  parseLog iface (log_topics log) (log_data log) = Fulfilled (Some args) ->
  getBlock provider (log_blockNumber log) = Fulfilled (Some b) ->
  exists parsedEvents,
    fst (fetchEventsForContract provider iface isMounted contractAddress g)
    = Fulfilled parsedEvents /\
    In (gameEventOf log (Some args) (Some (Js.toLowerCase (arg_player args)))
          g b) parsedEvents.
Proof.
  intros Hcall Hg Hin Hp Hb.
  destruct (getBlockNumber provider) as [latestBlock|] eqn:HL.
  - destruct (fetch_shape provider iface isMounted contractAddress g
                latestBlock HL) as [k [_ F]].
    rewrite F in Hcall |- *. cbn [fst snd] in *.
    eexists. split; [reflexivity |].
    destruct Hcall as [Hcall | Hcall]; [discriminate Hcall |].
    apply in_app_or in Hcall. destruct Hcall as [Hcall | Hcall].
    + apply in_map_iff in Hcall. destruct Hcall as [i [Hc Hi]].
      unfold chunkCall in Hc. injection Hc as <- <- <-.
      apply in_flat_map. exists log. split.
      * apply in_flat_map. exists i. split; [exact Hi |].
        unfold chunkLogs. rewrite Hg. exact Hin.
      * rewrite recordsOf_cases, Hp, Hb. left. reflexivity.
    + apply in_flat_map in Hcall. destruct Hcall as [l [_ Hc]].
      unfold callsOf, parseOne, tryCatch, bind, sync, await, ret in Hc.
      destruct (parseLog iface (log_topics l) (log_data l)) as [pl|];
        cbn in Hc; [| contradiction].
      destruct (getBlock provider (log_blockNumber l)) as [[bl|]|];
        cbn in Hc; destruct Hc as [Hc | []]; discriminate Hc.
  - exfalso. revert Hcall.
    unfold fetchEventsForContract, bind, await. rewrite HL. cbn.
    intros [H | []]. discriminate H.
Qed.

(** What the first effect stores when both fetches fulfil while mounted: a
    part of the fetched records of the full size the cap allows, the records
    it leaves out being no newer than those it keeps. *)
Lemma stored_is_newest_part (diceEvents coinflipEvents : list GameEvent) :
  exists rest,
    Permutation (allEvents diceEvents coinflipEvents ++ rest)
      (diceEvents ++ coinflipEvents) /\
    List.length (allEvents diceEvents coinflipEvents)
    = Nat.min MAX_RESULTS (List.length diceEvents + List.length coinflipEvents) /\
    (forall e e', In e (allEvents diceEvents coinflipEvents) -> In e' rest ->
                  blockNumber e' <= blockNumber e).
Proof.
  exists (skipn MAX_RESULTS (Js.sort byBlockDesc (diceEvents ++ coinflipEvents))).
  unfold allEvents. rewrite slice_cap. split; [| split].
  - rewrite firstn_skipn. apply sort_perm.
  - rewrite length_firstn.
    rewrite (Permutation_length (sort_perm (diceEvents ++ coinflipEvents))).
    rewrite length_app. reflexivity.
  - intros e e' He He'.
    pose proof (sort_Sorted (diceEvents ++ coinflipEvents)) as Hs.
    apply Sorted_StronglySorted in Hs; [| exact newerOrSame_trans].
    rewrite <- (firstn_skipn MAX_RESULTS
                  (Js.sort byBlockDesc (diceEvents ++ coinflipEvents))) in Hs.
    exact (StronglySorted_app_cross _ _ e e' Hs He He').
Qed.

(** C10, amended. The historical fetch does not look at the connected
    account. Whenever the scan is torn down, every log returned by a chunk
    query the scan made whose decoding and block lookup succeed yields its
    record in that contract's fetched list, whoever its player is. The list
    the first effect stores is made of the records of the two fetched lists
    only: all of them when they are at most 12, otherwise 12 of them, and no
    record left out is newer than a record kept. The run is the same for any
    two connected accounts. Only [handleLog] restricts what it adds to
    records of the connected account. *)
Theorem history_ignores_account :
  (forall provider iface isMounted contractAddress g a lo hi logs log args b,
     In (CallGetLogs a lo hi)
        (snd (fetchEventsForContract provider iface isMounted contractAddress
                g)) ->
     getLogs provider a lo hi = Fulfilled logs ->
     In log logs ->
     parseLog iface (log_topics log) (log_data log) = Fulfilled (Some args) ->
     getBlock provider (log_blockNumber log) = Fulfilled (Some b) ->
     exists parsedEvents,
       fst (fetchEventsForContract provider iface isMounted contractAddress g)
       = Fulfilled parsedEvents /\
       In (gameEventOf log (Some args)
             (Some (Js.toLowerCase (arg_player args))) g b) parsedEvents) /\
  (forall isConnected currentAccount provider iface mD mC st
          diceEvents coinflipEvents,
     guard isConnected currentAccount = false ->
     fst (fetchEventsForContract provider iface mD DICE_CONTRACT_ADDRESS dice)
     = Fulfilled diceEvents ->
     fst (fetchEventsForContract provider iface mC COINFLIP_CONTRACT_ADDRESS
            coinflip) = Fulfilled coinflipEvents ->
     let stored :=
       events
         (applyUpdates
            (updates (historyEffect isConnected currentAccount provider iface
                        mD mC true)) st) in
     exists rest,
       Permutation (stored ++ rest) (diceEvents ++ coinflipEvents) /\
       List.length stored
       = Nat.min MAX_RESULTS
           (List.length diceEvents + List.length coinflipEvents) /\
       (forall e e', In e stored -> In e' rest ->
                     blockNumber e' <= blockNumber e)) /\
  (forall isConnected account1 account2 provider iface mD mC mJ,
     guard isConnected account1 = false ->
     guard isConnected account2 = false ->
     historyEffect isConnected account1 provider iface mD mC mJ =
     historyEffect isConnected account2 provider iface mD mC mJ) /\
  (forall provider iface currentAccount isMounted log g u,
     In u (handleLogUpdates provider iface currentAccount isMounted log g) ->
     exists e, setter u = SetEventsWith e /\
               player e = Some (Js.toLowerCase currentAccount)).
Proof.
  split; [| split; [| split]].
  - intros. eapply fetched_record_of_call; eassumption.
  - intros isConnected currentAccount provider iface mD mC st d c G Hd Hc.
    cbv zeta.
    destruct (history_fulfilled isConnected currentAccount provider iface mD mC
                st d c G Hd Hc) as [_ Hst].
    rewrite Hst. cbn [events]. apply stored_is_newest_part.
  - intros isConnected account1 account2 provider iface mD mC mJ G1 G2.
    unfold historyEffect. rewrite G1, G2. reflexivity.
  - intros provider iface currentAccount isMounted log g u Hu.
    apply handleLogUpdates_inv in Hu.
    destruct Hu as [args [b [_ [Hl [_ [_ E]]]]]].
    eexists. split; [rewrite E; reflexivity |].
    cbn. rewrite Hl. reflexivity.
Qed.

(** ** The statements at concrete inputs *)

Lemma events_capped_most_recent_first_witness :
  (capped (events (applySetter (SetEventsWith (sampleEvent 7 "0xc")) initialState))
   /\ mostRecentFirst
        (events (applySetter (SetEventsWith (sampleEvent 7 "0xc")) initialState)))
  /\ (capped (allEvents thirteen [sampleEvent 7 "0xc"]) /\
      mostRecentFirst (allEvents thirteen [sampleEvent 7 "0xc"]))
  /\ (capped (eventsUpdater (sampleEvent 7 "0xc")
                [sampleEvent 9 "0xb"; sampleEvent 5 "0xa"]) /\
      mostRecentFirst (eventsUpdater (sampleEvent 7 "0xc")
                         [sampleEvent 9 "0xb"; sampleEvent 5 "0xa"])).
Proof.
  destruct events_capped_most_recent_first as [Hreach [Hmerge Hinsert]].
  split; [| split].
  - apply Hreach.
    apply reachable_update; [apply reachable_initial |].
    apply (emits_handleLog (nodeOver 2000 emptyChain) dataIsPlayer stranger true
             (logAt 7 "0xc" stranger) dice
             (mkUpdate false (SetEventsWith (sampleEvent 7 "0xc")))).
    left. reflexivity.
  - apply Hmerge.
  - apply Hinsert.
    + unfold capped, MAX_RESULTS. cbn. lia.
    + apply Sorted_mostRecentFirst.
      repeat constructor; unfold newerOrSame; cbn; lia.
Defined.

Lemma history_stores_sorted_prefix_witness :
  map setter
    (updates (historyEffect true (Some account) (nodeOver 2000 mixedChain)
                dataIsPlayer alwaysMounted alwaysMounted true))
  = [SetLoading true; SetError None;
     SetEvents
       (firstn MAX_RESULTS
          [sampleEvent 1995 "0xb"; sampleFlip 1995 "0xd";
           sampleFlip 1993 "0xc"; sampleEvent 1990 "0xa"]);
     SetLoading false] /\
  events
    (applyUpdates
       (updates (historyEffect true (Some account) (nodeOver 2000 mixedChain)
                   dataIsPlayer alwaysMounted alwaysMounted true))
       (mkState thirteen true failedToFetch))
  = firstn MAX_RESULTS
      [sampleEvent 1995 "0xb"; sampleFlip 1995 "0xd"; sampleFlip 1993 "0xc";
       sampleEvent 1990 "0xa"].
Proof.
  apply (history_stores_sorted_prefix true (Some account)
           (nodeOver 2000 mixedChain) dataIsPlayer alwaysMounted alwaysMounted
           (mkState thirteen true failedToFetch)
           [sampleEvent 1990 "0xa"; sampleEvent 1995 "0xb"]
           [sampleFlip 1993 "0xc"; sampleFlip 1995 "0xd"]).
  - reflexivity.
  - reflexivity.
  - reflexivity.
  - apply Sorted_mostRecentFirst.
    repeat constructor; unfold newerOrSame; cbn; lia.
  - intros k. unfold atBlock. cbn -[Z.eqb].
    destruct (Z.eqb_spec 1995 k), (Z.eqb_spec 1993 k), (Z.eqb_spec 1990 k);
      try reflexivity; lia.
Defined.

Lemma eventsUpdater_spec_witness :
  eventsUpdater (sampleEvent 7 "0xb") [sampleEvent 9 "0xb"; sampleEvent 5 "0xa"]
  = [sampleEvent 9 "0xb"; sampleEvent 5 "0xa"] /\
  eventsUpdater (sampleEvent 7 "0xc") [sampleEvent 9 "0xb"; sampleEvent 5 "0xa"]
  = firstn MAX_RESULTS
      [sampleEvent 9 "0xb"; sampleEvent 7 "0xc"; sampleEvent 5 "0xa"].
Proof.
  split.
  - apply (proj1 (eventsUpdater_spec _ _)).
    exists (sampleEvent 9 "0xb"). split; [left |]; reflexivity.
  - apply (proj2 (eventsUpdater_spec _ _)).
    + intros [r [[<- | [<- | []]] Hr]]; discriminate Hr.
    + apply Sorted_mostRecentFirst.
      repeat constructor; unfold newerOrSame; cbn; lia.
    + intros k. unfold atBlock. cbn -[Z.eqb].
      destruct (Z.eqb_spec 9 k), (Z.eqb_spec 7 k), (Z.eqb_spec 5 k);
        try reflexivity; lia.
Defined.

Lemma handleLog_filters_by_account_witness :
  (handleLog (nodeOver 2000 emptyChain) dataIsPlayer account true
     (logAt 7 "0xc" stranger) dice = (Fulfilled [], []) /\
   forall st,
     applyUpdates
       (handleLogUpdates (nodeOver 2000 emptyChain) dataIsPlayer account true
          (logAt 7 "0xc" stranger) dice) st = st) /\
  (exists args e,
     parseLog dataIsPlayer [] stranger = Fulfilled (Some args) /\
     Js.toLowerCase (arg_player args) = Js.toLowerCase strangerUpper /\
     setter (mkUpdate false (SetEventsWith (sampleEvent 7 "0xc")))
     = SetEventsWith e /\
     player e = Some (Js.toLowerCase strangerUpper)).
Proof.
  split.
  - apply (proj1 (handleLog_filters_by_account (nodeOver 2000 emptyChain)
                    dataIsPlayer account true (logAt 7 "0xc" stranger) dice)
             {| arg_player := stranger; arg_amount := 1; arg_choice := 3;
                arg_outcome := 3; arg_won := true |}).
    + reflexivity.
    + intros H. vm_compute in H. discriminate H.
  - apply (proj2 (handleLog_filters_by_account (nodeOver 2000 emptyChain)
                    dataIsPlayer strangerUpper true (logAt 7 "0xc" stranger)
                    dice)
             (mkUpdate false (SetEventsWith (sampleEvent 7 "0xc")))).
    left. reflexivity.
Defined.

Lemma disconnected_is_idle_witness :
  map setter
    (updates (historyEffect false (Some account) (nodeOver 2000 busyChain)
                dataIsPlayer alwaysMounted alwaysMounted true))
  = [SetEvents []; SetLoading false] /\
  events
    (applyUpdates
       (updates (historyEffect false (Some account) (nodeOver 2000 busyChain)
                   dataIsPlayer alwaysMounted alwaysMounted true))
       (mkState thirteen true None)) = [] /\
  loading
    (applyUpdates
       (updates (historyEffect false (Some account) (nodeOver 2000 busyChain)
                   dataIsPlayer alwaysMounted alwaysMounted true))
       (mkState thirteen true None)) = false /\
  rpc (historyEffect false (Some account) (nodeOver 2000 busyChain)
         dataIsPlayer alwaysMounted alwaysMounted true) = [] /\
  listeners (subscriptionEffect false (Some account)) = [] /\
  rpc (subscriptionEffect false (Some account)) = [] /\
  updates (subscriptionEffect false (Some account)) = [].
Proof.
  apply (disconnected_is_idle false (Some account) (nodeOver 2000 busyChain)
           dataIsPlayer alwaysMounted alwaysMounted true
           (mkState thirteen true None)).
  left. reflexivity.
Defined.

Lemma failures_are_skipped_witness :
  fetchEventsForContract flakyNode dataIsPlayer alwaysMounted
    DICE_CONTRACT_ADDRESS dice
  = fetchEventsForContract (quiet flakyNode) dataIsPlayer alwaysMounted
      DICE_CONTRACT_ADDRESS dice /\
  fetchEventsForContract flakyNode dataIsPlayer alwaysMounted
    DICE_CONTRACT_ADDRESS dice
  = (Fulfilled [sampleEvent 1550 "0xbb"; sampleEvent 1100 "0xbb";
                sampleEvent 650 "0xbb"; sampleEvent 200 "0xbb"],
     [CallGetBlockNumber;
      CallGetLogs DICE_CONTRACT_ADDRESS 1550 2000;
      CallGetLogs DICE_CONTRACT_ADDRESS 1100 1550;
      CallGetLogs DICE_CONTRACT_ADDRESS 650 1100;
      CallGetLogs DICE_CONTRACT_ADDRESS 200 650;
      CallGetLogs DICE_CONTRACT_ADDRESS 0 200;
      CallGetBlock 1550; CallGetBlock 1100; CallGetBlock 650;
      CallGetBlock 200]) /\
  (fst (parseLogs (nodeOver 2000 emptyChain) strictDecoder dice
          ([logAt 5 "0xa" stranger]
           ++ logAt 6 "0xb" "" :: [logAt 7 "0xc" stranger]) [])
   = fst (parseLogs (nodeOver 2000 emptyChain) strictDecoder dice
            ([logAt 5 "0xa" stranger] ++ [logAt 7 "0xc" stranger]) []) /\
   (List.length
      (callsOf (nodeOver 2000 emptyChain) strictDecoder dice
         (logAt 6 "0xb" "")) <= 1)%nat) /\
  (map setter
     (updates (historyEffect true (Some account) failingNode dataIsPlayer
                 alwaysMounted alwaysMounted true))
   = [SetLoading true; SetError None; SetError failedToFetch;
      SetLoading false] /\
   error
     (applyUpdates
        (updates (historyEffect true (Some account) failingNode dataIsPlayer
                    alwaysMounted alwaysMounted true))
        (mkState thirteen true None)) = failedToFetch /\
   loading
     (applyUpdates
        (updates (historyEffect true (Some account) failingNode dataIsPlayer
                    alwaysMounted alwaysMounted true))
        (mkState thirteen true None)) = false /\
   events
     (applyUpdates
        (updates (historyEffect true (Some account) failingNode dataIsPlayer
                    alwaysMounted alwaysMounted true))
        (mkState thirteen true None)) = thirteen /\
   render
     (applyUpdates
        (updates (historyEffect true (Some account) failingNode dataIsPlayer
                    alwaysMounted alwaysMounted true))
        (mkState thirteen true None)) = ErrorView "Error" /\
   rpc (historyEffect true (Some account) failingNode dataIsPlayer
          alwaysMounted alwaysMounted true)
   = snd (fetchEventsForContract failingNode dataIsPlayer alwaysMounted
            DICE_CONTRACT_ADDRESS dice)
     ++ snd (fetchEventsForContract failingNode dataIsPlayer alwaysMounted
               COINFLIP_CONTRACT_ADDRESS coinflip) /\
   (fst (fetchEventsForContract failingNode dataIsPlayer alwaysMounted
           DICE_CONTRACT_ADDRESS dice) = Rejected ->
    snd (fetchEventsForContract failingNode dataIsPlayer alwaysMounted
           DICE_CONTRACT_ADDRESS dice) = [CallGetBlockNumber]) /\
   (fst (fetchEventsForContract failingNode dataIsPlayer alwaysMounted
           COINFLIP_CONTRACT_ADDRESS coinflip) = Rejected ->
    snd (fetchEventsForContract failingNode dataIsPlayer alwaysMounted
           COINFLIP_CONTRACT_ADDRESS coinflip) = [CallGetBlockNumber])).
Proof.
  destruct failures_are_skipped as [Hquiet [Hscan [Hdrop Hreject]]].
  split; [apply Hquiet |].
  split; [exact (Hscan flakyNode dataIsPlayer alwaysMounted
                   DICE_CONTRACT_ADDRESS dice 2000 (fun _ => eq_refl) eq_refl) |].
  split.
  - apply Hdrop. left. reflexivity.
  - apply (Hreject true (Some account) failingNode dataIsPlayer alwaysMounted
             alwaysMounted true (mkState thirteen true None)).
    + reflexivity.
    + left. reflexivity.
Defined.

Lemma history_ignores_account_witness :
  (exists parsedEvents,
     fst (fetchEventsForContract (nodeOver 2000 busyChain) dataIsPlayer
            (mountedBefore 1) DICE_CONTRACT_ADDRESS dice)
     = Fulfilled parsedEvents /\
     In (sampleEvent 1988 "0xa") parsedEvents) /\
  (exists rest,
     Permutation
       (events
          (applyUpdates
             (updates (historyEffect true (Some account)
                         (nodeOver 2000 busyChain) dataIsPlayer
                         alwaysMounted alwaysMounted true))
             initialState) ++ rest)
       (thirteen ++ []) /\
     List.length
       (events
          (applyUpdates
             (updates (historyEffect true (Some account)
                         (nodeOver 2000 busyChain) dataIsPlayer
                         alwaysMounted alwaysMounted true))
             initialState))
     = Nat.min MAX_RESULTS (List.length thirteen + List.length (@nil GameEvent))
     /\
     (forall e e',
        In e (events
                (applyUpdates
                   (updates (historyEffect true (Some account)
                               (nodeOver 2000 busyChain) dataIsPlayer
                               alwaysMounted alwaysMounted true))
                   initialState)) ->
        In e' rest -> blockNumber e' <= blockNumber e)) /\
  historyEffect true (Some account) (nodeOver 2000 busyChain) dataIsPlayer
    alwaysMounted alwaysMounted true
  = historyEffect true (Some stranger) (nodeOver 2000 busyChain) dataIsPlayer
      alwaysMounted alwaysMounted true /\
  (exists e,
     setter (mkUpdate false (SetEventsWith (sampleEvent 7 "0xc")))
     = SetEventsWith e /\
     player e = Some (Js.toLowerCase strangerUpper)).
Proof.
  destruct history_ignores_account as [Hfetch [Hstored [Hsame Hlive]]].
  split; [| split; [| split]].
  - apply (Hfetch (nodeOver 2000 busyChain) dataIsPlayer (mountedBefore 1)
             DICE_CONTRACT_ADDRESS dice DICE_CONTRACT_ADDRESS 1550 2000
             (busyChain DICE_CONTRACT_ADDRESS) (logAt 1988 "0xa" stranger)
             {| arg_player := stranger; arg_amount := 1; arg_choice := 3;
                arg_outcome := 3; arg_won := true |}
             {| block_timestamp := 1988 * 2 |}).
    + cbn. right. left. reflexivity.
    + reflexivity.
    + left. reflexivity.
    + reflexivity.
    + reflexivity.
  - apply (Hstored true (Some account) (nodeOver 2000 busyChain) dataIsPlayer
             alwaysMounted alwaysMounted initialState thirteen []);
      reflexivity.
  - apply Hsame; reflexivity.
  - apply (Hlive (nodeOver 2000 emptyChain) dataIsPlayer strangerUpper
             true (logAt 7 "0xc" stranger) dice
             (mkUpdate false (SetEventsWith (sampleEvent 7 "0xc")))).
    left. reflexivity.
Defined.

(** * Further properties of the component *)

(** ** The calls of a contract scan *)

Lemma chunksNeeded_le_5 (latestBlock : Z) : chunksNeeded latestBlock <= 5.
Proof.
  pose proof (chunksNeeded_spec latestBlock).
  unfold totalBlocksToScan, startBlock, Js.Math_max, MAX_CHUNK_SIZE,
    TOTAL_BLOCKS_TO_CHECK in *.
  lia.
Qed.

Lemma chunk_query_shape (latestBlock i : Z) :
  0 <= i < chunksNeeded latestBlock ->
  Js.Math_max (latestBlock - TOTAL_BLOCKS_TO_CHECK) 0 <= fromBlock latestBlock i /\
  fromBlock latestBlock i < toBlock latestBlock i /\
  toBlock latestBlock i <= latestBlock /\
  toBlock latestBlock i - fromBlock latestBlock i <= MAX_CHUNK_SIZE.
Proof.
  intros Hi. pose proof (chunksNeeded_spec latestBlock).
  unfold fromBlock, toBlock, chunkStart, chunkEnd, totalBlocksToScan,
    startBlock, Js.Math_max, MAX_CHUNK_SIZE, TOTAL_BLOCKS_TO_CHECK in *.
  lia.
Qed.

Lemma callsOf_no_getLogs (provider : Provider) (iface : Interface)
  (g : GameType) (logs : list Log) (c : RpcCall) :
  In c (flat_map (callsOf provider iface g) logs) ->
  exists log, In log logs /\ c = CallGetBlock (log_blockNumber log).
Proof.
  intros H. apply in_flat_map in H. destruct H as [log [Hin Hc]].
  exists log. split; [exact Hin |].
  rewrite callsOf_cases in Hc.
  destruct (parseLog iface (log_topics log) (log_data log));
    [destruct Hc as [<- | []]; reflexivity | contradiction].
Qed.

(** X1. Whatever the node answers and whenever the component is torn down,
    every [getLogs] call of a contract scan names the scanned contract and
    asks for a non-empty block range inside the window of the last 2000
    blocks that spans at most 450 block numbers. *)
Theorem getLogs_calls_within_window (provider : Provider) (iface : Interface)
  (isMounted : Z -> bool) (contractAddress : string) (g : GameType)
  (latestBlock : Z) (a : string) (lo hi : Z) :
  getBlockNumber provider = Fulfilled latestBlock ->
  In (CallGetLogs a lo hi)
     (snd (fetchEventsForContract provider iface isMounted contractAddress g)) ->
  a = contractAddress /\
  inWindow latestBlock lo /\ inWindow latestBlock hi /\
  lo < hi /\ hi - lo <= MAX_CHUNK_SIZE.
Proof.
  intros HL Hin.
  destruct (fetch_shape provider iface isMounted contractAddress g latestBlock HL)
    as [k [Hk E]].
  rewrite E in Hin. cbn [snd] in Hin.
  destruct Hin as [Hin | Hin]; [discriminate Hin |].
  apply in_app_or in Hin. destruct Hin as [Hin | Hin].
  - apply in_map_iff in Hin. destruct Hin as [i [Hc Hi]].
    apply In_upFrom in Hi. unfold chunkCall in Hc. injection Hc as <- <- <-.
    assert (Hi' : 0 <= i < chunksNeeded latestBlock) by lia.
    pose proof (chunk_query_shape latestBlock i Hi') as [H1 [H2 [H3 H4]]].
    unfold inWindow. repeat split; try reflexivity; lia.
  - apply callsOf_no_getLogs in Hin. destruct Hin as [log [_ Hc]].
    discriminate Hc.
Qed.

(** X2. A contract scan first asks for the latest block number. If that call
    fails the scan rejects having made no other call; otherwise it makes at
    most five [getLogs] calls, those of the first chunks in order, and after
    them block lookups only. *)
Theorem scan_call_log_shape (provider : Provider) (iface : Interface)
  (isMounted : Z -> bool) (contractAddress : string) (g : GameType) :
  match getBlockNumber provider with
  | Rejected =>
      fetchEventsForContract provider iface isMounted contractAddress g
      = (Rejected, [CallGetBlockNumber])
  | Fulfilled latestBlock =>
      exists k blockCalls,
        snd (fetchEventsForContract provider iface isMounted contractAddress g)
        = CallGetBlockNumber
          :: map (chunkCall contractAddress latestBlock) (upFrom 0 k)
          ++ blockCalls /\
        (k <= 5)%nat /\
        Forall (fun c => exists n, c = CallGetBlock n) blockCalls
  end.
Proof.
  destruct (getBlockNumber provider) as [latestBlock|] eqn:HL.
  - destruct (fetch_shape provider iface isMounted contractAddress g
                latestBlock HL) as [k [Hk E]].
    exists k. eexists. rewrite E. cbn [snd]. split; [reflexivity |]. split.
    + pose proof (chunksNeeded_le_5 latestBlock). lia.
    + apply Forall_forall. intros c Hc.
      apply callsOf_no_getLogs in Hc. destruct Hc as [log [_ ->]]. eauto.
  - unfold fetchEventsForContract, bind, await. rewrite HL. reflexivity.
Qed.

(** X3. While the component stays mounted and the chain is past block 0,
    every block of the window of the last 2000 blocks lies in the range of
    some [getLogs] call the scan makes. *)
Theorem mounted_scan_covers_window (provider : Provider) (iface : Interface)
  (isMounted : Z -> bool) (contractAddress : string) (g : GameType)
  (latestBlock b : Z) :
  (forall j, isMounted j = true) ->
  getBlockNumber provider = Fulfilled latestBlock ->
  1 <= latestBlock ->
  inWindow latestBlock b ->
  exists lo hi,
    In (CallGetLogs contractAddress lo hi)
       (snd (fetchEventsForContract provider iface isMounted contractAddress g))
    /\ lo <= b <= hi.
Proof.
  intros Hm HL H1 Hb.
  destruct (chunks_cover_window latestBlock b H1 Hb) as [i [Hi Hc]].
  exists (fromBlock latestBlock i), (toBlock latestBlock i).
  split; [| exact Hc].
  rewrite (fetch_mounted provider iface contractAddress g isMounted latestBlock
             Hm HL).
  cbn [snd]. right. apply in_or_app. left.
  apply in_map_iff. exists i. split; [reflexivity |].
  apply In_chunkIndices, Hi.
Qed.

Lemma scanChunks_stops (provider : Provider) (isMounted : Z -> bool)
  (contractAddress : string) (latestBlock : Z) :
  forall k todo i allLogs,
    (k < todo)%nat ->
    (forall j, i <= j < i + Z.of_nat k -> isMounted j = true) ->
    isMounted (i + Z.of_nat k) = false ->
    scanChunks provider isMounted contractAddress latestBlock todo i allLogs =
    (Fulfilled
       (allLogs ++
        flat_map (chunkLogs provider contractAddress latestBlock) (upFrom i k)),
     map (chunkCall contractAddress latestBlock) (upFrom i k)).
Proof.
  induction k as [|k IH]; intros todo i allLogs Hk Hm Hoff;
    (destruct todo as [|todo]; [lia |]); cbn [scanChunks].
  - replace (i + Z.of_nat 0) with i in Hoff by lia. rewrite Hoff.
    cbn. rewrite app_nil_r. reflexivity.
  - rewrite (Hm i) by lia.
    unfold bind, tryCatch, await, ret. cbn [fst snd].
    assert (Hm' : forall j, i + 1 <= j < i + 1 + Z.of_nat k -> isMounted j = true)
      by (intros j Hj; apply Hm; lia).
    assert (Hoff' : isMounted (i + 1 + Z.of_nat k) = false)
      by (replace (i + 1 + Z.of_nat k) with (i + Z.of_nat (S k)) by lia;
          exact Hoff).
    cbn [upFrom flat_map map]. unfold chunkLogs at 1, chunkCall at 1.
    destruct (getLogs provider contractAddress (fromBlock latestBlock i)
                (toBlock latestBlock i)) as [logs|]; cbn;
      rewrite (IH todo (i + 1) _ ltac:(lia) Hm' Hoff'); cbn.
    + rewrite <- app_assoc. reflexivity.
    + reflexivity.
Qed.

(** X4. When the flag reads true for the first [k] iterations and false at
    the next, before the last chunk, the scan queries those [k] chunks and no
    other; the logs it has collected are still decoded, each with its block
    lookup, and the fetch fulfils with their records. *)
Theorem teardown_stops_the_scan (provider : Provider) (iface : Interface)
  (isMounted : Z -> bool) (contractAddress : string) (g : GameType)
  (latestBlock : Z) (k : nat) :
  getBlockNumber provider = Fulfilled latestBlock ->
  Z.of_nat k < chunksNeeded latestBlock ->
  (forall j, 0 <= j < Z.of_nat k -> isMounted j = true) ->
  isMounted (Z.of_nat k) = false ->
  let allLogs :=
    flat_map (chunkLogs provider contractAddress latestBlock) (upFrom 0 k) in
  fetchEventsForContract provider iface isMounted contractAddress g =
  (Fulfilled (flat_map (recordsOf provider iface g) allLogs),
   CallGetBlockNumber
   :: map (chunkCall contractAddress latestBlock) (upFrom 0 k)
   ++ flat_map (callsOf provider iface g) allLogs).
Proof.
  intros HL Hk Hm Hoff allLogs.
  unfold fetchEventsForContract, bind at 1, await. rewrite HL. cbn.
  unfold bind.
  rewrite (scanChunks_stops provider isMounted contractAddress latestBlock k
             (Z.to_nat (chunksNeeded latestBlock)) 0 []);
    [| lia | intros j Hj; apply Hm; lia | exact Hoff].
  cbn. rewrite parseLogs_closed. reflexivity.
Qed.

(** X5. Every record a contract scan returns carries the game type the scan
    was started with, and the block number and transaction hash (or
    'unknown') of a log that one of its chunk queries for that contract
    returned, with the timestamp of the block looked up for it. *)
Theorem fetched_records_come_from_logs (provider : Provider) (iface : Interface)
  (isMounted : Z -> bool) (contractAddress : string) (g : GameType)
  (parsedEvents : list GameEvent) (e : GameEvent) :
  fst (fetchEventsForContract provider iface isMounted contractAddress g)
  = Fulfilled parsedEvents ->
  In e parsedEvents ->
  gameType e = g /\
  exists latestBlock i logs log block,
    getBlockNumber provider = Fulfilled latestBlock /\
    0 <= i < chunksNeeded latestBlock /\
    getLogs provider contractAddress (fromBlock latestBlock i)
      (toBlock latestBlock i) = Fulfilled logs /\
    In log logs /\
    getBlock provider (log_blockNumber log) = Fulfilled (Some block) /\
    blockNumber e = log_blockNumber log /\
    transactionHash e = Js.orElse (log_transactionHash log) "unknown" /\
    timestamp e = block_timestamp block.
Proof.
  intros Hf He.
  destruct (getBlockNumber provider) as [latestBlock|] eqn:HL.
  - destruct (fetch_shape provider iface isMounted contractAddress g
                latestBlock HL) as [k [Hk E]].
    rewrite E in Hf. cbn [fst] in Hf. injection Hf as <-.
    apply in_flat_map in He. destruct He as [log [Hlog He]].
    apply in_flat_map in Hlog. destruct Hlog as [i [Hi Hlog]].
    apply In_upFrom in Hi.
    unfold chunkLogs in Hlog.
    destruct (getLogs provider contractAddress (fromBlock latestBlock i)
                (toBlock latestBlock i)) as [logs|] eqn:Hg; [| contradiction].
    rewrite recordsOf_cases in He.
    destruct (parseLog iface (log_topics log) (log_data log)) as [p|];
      [| contradiction].
    destruct (getBlock provider (log_blockNumber log)) as [[b|]|] eqn:Hb;
      try contradiction.
    destruct He as [<- | []].
    split; [reflexivity |].
    exists latestBlock, i, logs, log, b.
    repeat split; auto; lia.
  - apply (fetch_rejects_iff provider iface contractAddress g isMounted) in HL.
    congruence.
Qed.

(** X6. A log for which the decoder returns null (rather than throwing) is
    kept by the historical path: it yields a record with no player, amount or
    win flag and with NaN as choice and outcome. The subscription handler
    drops such a log. *)
Theorem undecoded_log_kept_by_history (provider : Provider) (iface : Interface)
  (currentAccount : string) (isMounted : bool) (g : GameType) (log : Log)
  (block : Block) :
  parseLog iface (log_topics log) (log_data log) = Fulfilled None ->
  getBlock provider (log_blockNumber log) = Fulfilled (Some block) ->
  recordsOf provider iface g log =
    [ {| blockNumber := log_blockNumber log;
         transactionHash := Js.orElse (log_transactionHash log) "unknown";
         player := None; amount := None; choice := NaN; outcome := NaN;
         won := None; gameType := g;
         timestamp := block_timestamp block |} ] /\
  handleLog provider iface currentAccount isMounted log g = (Fulfilled [], []).
Proof.
  intros Hp Hb. split.
  - rewrite recordsOf_cases, Hp, Hb. reflexivity.
  - unfold handleLog, tryCatch, bind, sync, await, ret. rewrite Hp. reflexivity.
Qed.

(** ** More on the merge and the updater *)

(** X7. The initial list holds all the fetched records when they are at most
    12, and exactly 12 of them otherwise. *)
Theorem allEvents_length (diceEvents coinflipEvents : list GameEvent) :
  List.length (allEvents diceEvents coinflipEvents)
  = Nat.min MAX_RESULTS (List.length diceEvents + List.length coinflipEvents).
Proof.
  unfold allEvents. rewrite slice_cap, length_firstn.
  rewrite (Permutation_length (sort_perm (diceEvents ++ coinflipEvents))).
  rewrite length_app. reflexivity.
Qed.

Lemma applySetter_not_SetEvents (s : Setter) (st : State) :
  (forall l, s <> SetEvents l) ->
  distinctHashes (events st) ->
  distinctHashes (events (applySetter s st)).
Proof.
  intros Hs Hd. destruct s as [l | e | b | m]; cbn; try assumption.
  - exfalso. apply (Hs l). reflexivity.
  - apply eventsUpdater_distinctHashes, Hd.
Qed.

(** X8. Between two historical results the list stays free of duplicate
    transaction hashes: if no two records share a hash, then after any
    sequence of setter calls other than [setEvents(list)] (live insertions,
    loading and error changes) still no two records share a hash. *)
Theorem live_updates_keep_hashes_distinct (us : list Update) (st : State) :
  (forall u l, In u us -> setter u <> SetEvents l) ->
  distinctHashes (events st) ->
  distinctHashes (events (applyUpdates us st)).
Proof.
  revert st. induction us as [|u us IH]; intros st Hus Hd; [exact Hd |].
  cbn. apply IH.
  - intros u' l Hin. apply Hus. right. exact Hin.
  - apply applySetter_not_SetEvents; [| exact Hd].
    intros l. apply Hus. left. reflexivity.
Qed.

Lemma insert_on_top (e : GameEvent) (l : list GameEvent) :
  (forall r, In r l -> blockNumber r <= blockNumber e) ->
  Js.insert byBlockDesc e l = e :: l.
Proof.
  destruct l as [|y t]; intros H; [reflexivity |].
  cbn. pose proof (H y (or_introl eq_refl)).
  destruct (Z.ltb_spec 0 (byBlockDesc e y)) as [Hlt | _]; [| reflexivity].
  unfold byBlockDesc in Hlt. lia.
Qed.

(** X9. A new event whose block is at least as recent as every record of the
    list is put on top, before the records of its own block; the rest is the
    list sorted, cut to 11 records. *)
Theorem newest_event_on_top (newEvent : GameEvent) (prev : list GameEvent) :
  ~ hasHash (transactionHash newEvent) prev ->
  (forall r, In r prev -> blockNumber r <= blockNumber newEvent) ->
  eventsUpdater newEvent prev
  = newEvent :: firstn (MAX_RESULTS - 1) (Js.sort byBlockDesc prev).
Proof.
  intros Hn Hb. rewrite (eventsUpdater_absent _ _ Hn). cbn [Js.sort].
  rewrite insert_on_top; [reflexivity |].
  intros r Hr. apply Hb. apply (Permutation_in r (sort_perm prev)). exact Hr.
Qed.

Lemma eventsUpdater_subset (e : GameEvent) (prev : list GameEvent)
  (x : GameEvent) :
  In x (eventsUpdater e prev) -> x = e \/ In x prev.
Proof.
  unfold eventsUpdater. destruct (Js.some _ prev); [auto |].
  rewrite slice_cap. intros H.
  assert (Hin : In x (Js.sort byBlockDesc (e :: prev))).
  { rewrite <- (firstn_skipn MAX_RESULTS (Js.sort byBlockDesc (e :: prev))).
    apply in_or_app. left. exact H. }
  apply (Permutation_in x (sort_perm (e :: prev))) in Hin.
  destruct Hin as [<- | Hin]; auto.
Qed.

(** X10. The updater adds nothing but the new event, and below the cap it
    loses nothing: every record of its result is the new event or a record
    of the list, and when the hash is new and the list holds fewer than 12
    records the result is a rearrangement of the new event and the list. *)
Theorem updater_adds_only_the_event (newEvent : GameEvent)
  (prev : list GameEvent) :
  (forall x, In x (eventsUpdater newEvent prev) -> x = newEvent \/ In x prev) /\
  (~ hasHash (transactionHash newEvent) prev ->
   (List.length prev < MAX_RESULTS)%nat ->
   Permutation (eventsUpdater newEvent prev) (newEvent :: prev)).
Proof.
  split; [apply eventsUpdater_subset |].
  intros Hn Hlen. rewrite (eventsUpdater_absent _ _ Hn).
  rewrite firstn_all2; [apply sort_perm |].
  rewrite (Permutation_length (sort_perm (newEvent :: prev))). cbn. lia.
Qed.

(** [insert] puts the new record after the strictly newer ones. *)
Lemma insert_split (e : GameEvent) (l : list GameEvent) :
  exists la lb,
    l = la ++ lb /\ Js.insert byBlockDesc e l = la ++ e :: lb /\
    forall x, In x la -> blockNumber e < blockNumber x.
Proof.
  induction l as [|y t IH].
  - exists [], []. cbn. repeat split; auto. intros x [].
  - cbn [Js.insert].
    destruct (Z.ltb_spec 0 (byBlockDesc e y)) as [Hlt | Hge].
    + destruct IH as [la [lb [E1 [E2 H]]]].
      exists (y :: la), lb. rewrite E2, E1. repeat split; auto.
      intros x [<- | Hx]; [unfold byBlockDesc in Hlt; lia | apply H, Hx].
    + exists [], (y :: t). repeat split; auto. intros x [].
Qed.

Lemma insert_at_end (e : GameEvent) (l : list GameEvent) :
  (forall x, In x l -> blockNumber e < blockNumber x) ->
  Js.insert byBlockDesc e l = l ++ [e].
Proof.
  induction l as [|y t IH]; intros H; [reflexivity |].
  cbn [Js.insert]. pose proof (H y (or_introl eq_refl)).
  destruct (Z.ltb_spec 0 (byBlockDesc e y)) as [_ | Hge].
  - cbn. f_equal. apply IH. intros x Hx. apply H. right. exact Hx.
  - unfold byBlockDesc in Hge. lia.
Qed.

Lemma sort_of_sorted (l : list GameEvent) :
  mostRecentFirst l -> Js.sort byBlockDesc l = l.
Proof.
  intros H. apply sort_characterised; [exact H |]. intros k. reflexivity.
Qed.

(** X11. Delivering the same event twice changes nothing the second time:
    the updater applied again to its own result returns that result. *)
Theorem updater_idempotent (newEvent : GameEvent) (prev : list GameEvent) :
  eventsUpdater newEvent (eventsUpdater newEvent prev)
  = eventsUpdater newEvent prev.
Proof.
  destruct (Js.some (fun r => String.eqb (transactionHash r)
                                (transactionHash newEvent)) prev) eqn:Hs.
  - apply some_hasHash in Hs.
    rewrite (eventsUpdater_present _ _ Hs). apply eventsUpdater_present, Hs.
  - assert (Hn : ~ hasHash (transactionHash newEvent) prev).
    { intros H. apply some_hasHash in H. congruence. }
    rewrite (eventsUpdater_absent _ _ Hn). cbn [Js.sort].
    destruct (insert_split newEvent (Js.sort byBlockDesc prev))
      as [la [lb [E1 [E2 Hla]]]].
    rewrite E2.
    destruct (Nat.lt_ge_cases (List.length la) MAX_RESULTS) as [Hlt | Hge].
    + (* the event is among the first 12 *)
      apply eventsUpdater_present. exists newEvent. split; [| reflexivity].
      rewrite firstn_app. apply in_or_app. right.
      destruct (MAX_RESULTS - List.length la)%nat as [|n] eqn:En; [lia |].
      left. reflexivity.
    + (* twelve strictly newer records stand before it *)
      rewrite firstn_app.
      replace (MAX_RESULTS - List.length la)%nat with 0%nat by lia.
      cbn [firstn]. rewrite app_nil_r.
      set (l1 := firstn MAX_RESULTS la).
      assert (Hl1 : forall x, In x l1 -> In x la).
      { intros x Hx. rewrite <- (firstn_skipn MAX_RESULTS la).
        apply in_or_app. left. exact Hx. }
      assert (Hn1 : ~ hasHash (transactionHash newEvent) l1).
      { intros [r [Hr Hh]]. apply Hn. exists r. split; [| exact Hh].
        apply (Permutation_in r (sort_perm prev)). rewrite E1.
        apply in_or_app. left. apply Hl1, Hr. }
      rewrite (eventsUpdater_absent _ _ Hn1). cbn [Js.sort].
      assert (Hsorted : mostRecentFirst l1).
      { apply firstn_mostRecentFirst.
        pose proof (sort_Sorted prev) as Hs'. rewrite E1 in Hs'.
        apply Sorted_mostRecentFirst.
        apply Sorted_StronglySorted in Hs'; [| exact newerOrSame_trans].
        apply StronglySorted_Sorted.
        clear - Hs'. induction la as [|a la IH]; [constructor |].
        cbn in Hs'. inversion Hs' as [|? ? Ht Ha]; subst.
        constructor; [apply IH, Ht |].
        apply Forall_app in Ha. apply Ha. }
      rewrite (sort_of_sorted l1 Hsorted).
      rewrite insert_at_end by (intros x Hx; apply Hla, Hl1, Hx).
      assert (Hlen : List.length l1 = MAX_RESULTS)
        by (apply firstn_length_le; exact Hge).
      rewrite firstn_app, Hlen, Nat.sub_diag. cbn [firstn].
      rewrite app_nil_r. rewrite <- Hlen. apply firstn_all.
Qed.

(** X12. Logs without a transaction hash are all recorded under the hash
    'unknown', so once a record of such a log is in the list the updater
    takes the event of any other hash-less log for a duplicate and leaves
    the list as it is. *)
Theorem hashless_logs_collide (log1 log2 : Log) (parsed1 parsed2 : option RollArgs)
  (player1 player2 : option string) (g1 g2 : GameType) (block1 block2 : Block)
  (prev : list GameEvent) :
  log_transactionHash log1 = "" ->
  log_transactionHash log2 = "" ->
  In (gameEventOf log1 parsed1 player1 g1 block1) prev ->
  transactionHash (gameEventOf log2 parsed2 player2 g2 block2) = "unknown" /\
  eventsUpdater (gameEventOf log2 parsed2 player2 g2 block2) prev = prev.
Proof.
  intros H1 H2 Hin.
  assert (E2 : transactionHash (gameEventOf log2 parsed2 player2 g2 block2)
               = "unknown") by (cbn; rewrite H2; reflexivity).
  split; [exact E2 |].
  apply eventsUpdater_present. rewrite E2.
  exists (gameEventOf log1 parsed1 player1 g1 block1).
  split; [exact Hin |]. cbn. rewrite H1. reflexivity.
Qed.

(** ** More on the reachable states and the view *)

Lemma orElse_unknown_nonempty (x : string) : Js.orElse x "unknown" <> "".
Proof.
  unfold Js.orElse. destruct (String.eqb_spec x ""); [discriminate | assumption].
Qed.

Lemma recordsOf_hash (provider : Provider) (iface : Interface) (g : GameType)
  (logs : list Log) (e : GameEvent) :
  In e (flat_map (recordsOf provider iface g) logs) -> transactionHash e <> "".
Proof.
  intros H. apply in_flat_map in H. destruct H as [log [_ He]].
  rewrite recordsOf_cases in He.
  destruct (parseLog iface (log_topics log) (log_data log)) as [p|];
    [| contradiction].
  destruct (getBlock provider (log_blockNumber log)) as [[b|]|];
    try contradiction.
  destruct He as [<- | []]. cbn. apply orElse_unknown_nonempty.
Qed.

Lemma fetched_hash_nonempty (provider : Provider) (iface : Interface)
  (isMounted : Z -> bool) (contractAddress : string) (g : GameType)
  (parsedEvents : list GameEvent) (e : GameEvent) :
  fst (fetchEventsForContract provider iface isMounted contractAddress g)
  = Fulfilled parsedEvents ->
  In e parsedEvents -> transactionHash e <> "".
Proof.
  intros Hf He.
  destruct (getBlockNumber provider) as [latestBlock|] eqn:HL.
  - destruct (fetch_shape provider iface isMounted contractAddress g
                latestBlock HL) as [k [_ E]].
    rewrite E in Hf. cbn [fst] in Hf. injection Hf as <-.
    eapply recordsOf_hash, He.
  - apply (fetch_rejects_iff provider iface contractAddress g isMounted) in HL.
    congruence.
Qed.

Lemma emits_hash_nonempty (s : Setter) (st : State) :
  emits s ->
  (forall e, In e (events st) -> transactionHash e <> "") ->
  forall e, In e (events (applySetter s st)) -> transactionHash e <> "".
Proof.
  intros He Hst. destruct He as [conn acct P I mD mC mJ u Hu | P I acct m log g u Hu].
  - unfold historyEffect in Hu.
    destruct (guard conn acct); cbn [updates] in Hu.
    + destruct Hu as [<- | [<- | []]]; cbn; [intros e [] | exact Hst].
    + unfold promiseAll2 in Hu. cbn [fst] in Hu.
      destruct (fst (fetchEventsForContract P I mD DICE_CONTRACT_ADDRESS dice))
        as [d|] eqn:Hd;
      destruct (fst (fetchEventsForContract P I mC COINFLIP_CONTRACT_ADDRESS
                       coinflip)) as [c|] eqn:Hc;
      destruct mJ; cbn in Hu;
      repeat (destruct Hu as [<- | Hu]; [cbn; try exact Hst |]);
      try contradiction.
      intros e Hin. apply allEvents_subset in Hin. apply in_app_or in Hin.
      destruct Hin as [Hin | Hin];
        [eapply fetched_hash_nonempty; [exact Hd | exact Hin]
        | eapply fetched_hash_nonempty; [exact Hc | exact Hin]].
  - apply handleLogUpdates_inv in Hu.
    destruct Hu as [args [b [_ [_ [_ [_ ->]]]]]]. cbn.
    intros e Hin. apply eventsUpdater_subset in Hin.
    destruct Hin as [-> | Hin]; [cbn; apply orElse_unknown_nonempty |].
    apply Hst, Hin.
Qed.

(** X13. In every reachable state every record of the list has a non-empty
    transaction hash (a log without one is recorded as 'unknown'), so no
    table row has an empty key. *)
Theorem reachable_hashes_nonempty (st : State) :
  reachable st ->
  forall e, In e (events st) -> transactionHash e <> "".
Proof.
  induction 1 as [| st s Hr IH He].
  - intros e [].
  - apply emits_hash_nonempty; assumption.
Qed.

Lemma applyUpdates_live (us : list Update) :
  (forall u, In u us ->
     exists provider iface currentAccount isMounted log g,
       In u (handleLogUpdates provider iface currentAccount isMounted log g)) ->
  forall st,
    loading (applyUpdates us st) = loading st /\
    error (applyUpdates us st) = error st.
Proof.
  induction us as [|u us IH]; intros Hus st; [split; reflexivity |].
  destruct (Hus u (or_introl eq_refl)) as [P [I [acct [m [log [g Hu]]]]]].
  apply handleLogUpdates_inv in Hu.
  destruct Hu as [args [b [_ [_ [_ [_ E]]]]]].
  change (applyUpdates (u :: us) st)
    with (applyUpdates us (applySetter (setter u) st)).
  destruct (IH (fun u' H => Hus u' (or_intror H)) (applySetter (setter u) st))
    as [Hl He].
  rewrite Hl, He, E. split; reflexivity.
Qed.

Lemma handleLogUpdates_merge (provider : Provider) (iface : Interface)
  (currentAccount : string) (log : Log) (g : GameType) (args : RollArgs)
  (b : Block) :
  parseLog iface (log_topics log) (log_data log) = Fulfilled (Some args) ->
  Js.toLowerCase (arg_player args) = Js.toLowerCase currentAccount ->
  getBlock provider (log_blockNumber log) = Fulfilled (Some b) ->
  handleLogUpdates provider iface currentAccount true log g
  = [mkUpdate false
       (SetEventsWith
          (gameEventOf log (Some args)
             (Some (Js.toLowerCase (arg_player args))) g b))].
Proof.
  intros Hp Hl Hb.
  unfold handleLogUpdates, handleLog, tryCatch, bind, sync, await, ret.
  rewrite Hp. cbn. unfold samePlayer, playerOf. cbn.
  rewrite Hl, String.eqb_refl. cbn. rewrite Hb. reflexivity.
Qed.

(** X14. Once the error is set and loading is over, live events are still
    merged into the list but never shown. After any setter calls made by
    [handleLog] the view is the fixed error text and the error and loading
    state are as before; and a log of the connected account with a new hash,
    delivered while mounted, does get into the list, which becomes the new
    record together with the old list, sorted by descending blockNumber and
    cut to 12 records, while the view stays the error text. *)
Theorem error_view_persists (st : State) :
  Js.truthy (error st) = true ->
  loading st = false ->
  (forall us,
     (forall u, In u us ->
        exists provider iface currentAccount isMounted log g,
          In u (handleLogUpdates provider iface currentAccount isMounted log g)) ->
     render (applyUpdates us st) = ErrorView "Error" /\
     error (applyUpdates us st) = error st /\
     loading (applyUpdates us st) = false) /\
  (forall provider iface currentAccount log g args b s,
     parseLog iface (log_topics log) (log_data log) = Fulfilled (Some args) ->
     Js.toLowerCase (arg_player args) = Js.toLowerCase currentAccount ->
     getBlock provider (log_blockNumber log) = Fulfilled (Some b) ->
     let newEvent :=
       gameEventOf log (Some args) (Some (Js.toLowerCase (arg_player args)))
         g b in
     ~ hasHash (transactionHash newEvent) (events st) ->
     mostRecentFirst s ->
     sameBlockwise (newEvent :: events st) s ->
     events
       (applyUpdates
          (handleLogUpdates provider iface currentAccount true log g) st)
     = firstn MAX_RESULTS s /\
     render
       (applyUpdates
          (handleLogUpdates provider iface currentAccount true log g) st)
     = ErrorView "Error").
Proof.
  intros He Hl. split.
  - intros us Hus.
    destruct (applyUpdates_live us Hus st) as [Hl' He'].
    unfold render. rewrite Hl', He', Hl, He. cbn. auto.
  - intros provider iface currentAccount log g args b s Hp Hlow Hb newEvent
      Hn Hs Hsb.
    rewrite (handleLogUpdates_merge provider iface currentAccount log g args b
               Hp Hlow Hb).
    fold newEvent. cbn [applyUpdates fold_left setter applySetter].
    split.
    + cbn [events]. rewrite (eventsUpdater_absent _ _ Hn).
      f_equal. apply sort_characterised; assumption.
    + unfold render. cbn [loading error]. rewrite Hl, He. reflexivity.
Qed.

(** X15. When the joined fetch fulfils while the component is mounted, the
    list becomes the merge of the two fetched lists whatever it held before
    (events merged by the subscription meanwhile stay only if the fetch
    returned them), loading ends false and the error is null. The view is
    then nothing when that list is empty and the table of the list when
    every row has an amount; with a row whose amount is undefined (the
    record of a log the decoder returned null for) the render throws. *)
Theorem history_result_replaces_list (isConnected : bool)
  (currentAccount : option string) (provider : Provider) (iface : Interface)
  (mD mC : Z -> bool) (st : State) (diceEvents coinflipEvents : list GameEvent) :
  guard isConnected currentAccount = false ->
  fst (fetchEventsForContract provider iface mD DICE_CONTRACT_ADDRESS dice)
  = Fulfilled diceEvents ->
  fst (fetchEventsForContract provider iface mC COINFLIP_CONTRACT_ADDRESS
         coinflip) = Fulfilled coinflipEvents ->
  applyUpdates
    (updates (historyEffect isConnected currentAccount provider iface mD mC true))
    st
  = {| events := allEvents diceEvents coinflipEvents;
       loading := false; error := None |} /\
  render
    (applyUpdates
       (updates (historyEffect isConnected currentAccount provider iface mD mC
                   true)) st)
  = match allEvents diceEvents coinflipEvents with
    | [] => NoView
    | rows => if forallb hasAmount rows then TableView rows else RenderThrows
    end.
Proof.
  intros G Hd Hc.
  destruct (history_fulfilled isConnected currentAccount provider iface mD mC
              st diceEvents coinflipEvents G Hd Hc) as [_ Hst].
  rewrite Hst. generalize (allEvents diceEvents coinflipEvents). intros rows.
  split; [reflexivity |].
  unfold render. destruct rows; reflexivity.
Qed.

(** ** The time and player cells *)

Lemma valid_date (ms : Z) :
  Z.abs ms <= MAX_TIME_VALUE -> Date_getTime ms = Num ms.
Proof.
  intros H. unfold Date_getTime.
  destruct (Z.leb_spec (Z.abs ms) MAX_TIME_VALUE); [reflexivity | lia].
Qed.

(** X16. A record whose block is less than a minute old, or whose timestamp
    lies in the future, is shown as 'Just now'. *)
Theorem formatTimestamp_just_now (now timestamp : Z) :
  Z.abs (timestamp * 1000) <= MAX_TIME_VALUE ->
  now - timestamp * 1000 < 60000 ->
  formatTimestamp now timestamp = "Just now".
Proof.
  intros Hv Hage. unfold formatTimestamp. rewrite (valid_date _ Hv).
  cbn [numSub numFloorDiv numLt].
  assert (H : (now - timestamp * 1000) / 60000 < 1)
    by (apply Z.div_lt_upper_bound; lia).
  destruct (Z.ltb_spec ((now - timestamp * 1000) / 60000) 1);
    [reflexivity | lia].
Qed.

(** X17. For a record at least a minute old the text is a count, a unit, an
    's' unless the count is 1, and ' ago'. With [d] the age in whole
    minutes: below 60 the count is [d] in 'min'; below 1440 it is the whole
    hours of [d], under 24, in 'hour'; from 1440 on it is the whole days, in
    'day'. The count is never 0. *)
Theorem formatTimestamp_age (now timestamp : Z) :
  Z.abs (timestamp * 1000) <= MAX_TIME_VALUE ->
  60000 <= now - timestamp * 1000 ->
  let d := (now - timestamp * 1000) / 60000 in
  exists n unit,
    formatTimestamp now timestamp
    = (numToString (Num n) ++ " " ++ unit
       ++ (if (n =? 1)%Z then "" else "s") ++ " ago")%string /\
    1 <= n /\
    ((unit = "min" /\ n = d /\ d < 60) \/
     (unit = "hour" /\ n = d / 60 /\ 60 <= d < 1440 /\ n < 24) \/
     (unit = "day" /\ n = d / 1440 /\ 1440 <= d)).
Proof.
  intros Hv Hage d.
  assert (Hd : 1 <= d) by (apply Z.div_le_lower_bound; lia).
  unfold formatTimestamp. rewrite (valid_date _ Hv).
  cbn [numSub numFloorDiv numLt]. fold d.
  destruct (Z.ltb_spec d 1); [lia |].
  destruct (Z.ltb_spec d 60).
  - exists d, "min". split; [reflexivity |]. split; [lia |]. left. auto.
  - destruct (Z.ltb_spec d 1440).
    + exists (d / 60), "hour". split; [reflexivity |].
      assert (1 <= d / 60) by (apply Z.div_le_lower_bound; lia).
      assert (d / 60 < 24) by (apply Z.div_lt_upper_bound; lia).
      split; [lia |]. right. left. repeat split; auto; lia.
    + exists (d / 1440), "day". split; [reflexivity |].
      assert (1 <= d / 1440) by (apply Z.div_le_lower_bound; lia).
      split; [lia |]. right. right. repeat split; auto.
Qed.

(** X18. A timestamp whose date is out of the range of JavaScript dates
    (more than 8.64e15 milliseconds from the epoch) is shown as
    'NaN days ago', whatever the current time. *)
Theorem formatTimestamp_invalid_date (now timestamp : Z) :
  MAX_TIME_VALUE < Z.abs (timestamp * 1000) ->
  formatTimestamp now timestamp = "NaN days ago".
Proof.
  intros H. unfold formatTimestamp, Date_getTime.
  destruct (Z.leb_spec (Z.abs (timestamp * 1000)) MAX_TIME_VALUE); [lia |].
  reflexivity.
Qed.

Lemma string_length_append (a b : string) :
  String.length (a ++ b)%string = (String.length a + String.length b)%nat.
Proof. induction a as [|c a IH]; cbn; [reflexivity | rewrite IH; reflexivity]. Qed.

Lemma string_append_assoc (a b c : string) :
  (a ++ b ++ c)%string = ((a ++ b) ++ c)%string.
Proof. induction a as [|x a IH]; cbn; [reflexivity | rewrite IH; reflexivity]. Qed.

Lemma substring_whole (s : string) : substring 0 (String.length s) s = s.
Proof. induction s as [|c s IH]; cbn; [reflexivity | rewrite IH; reflexivity]. Qed.

Lemma substring_prefix (a b : string) :
  substring 0 (String.length a) (a ++ b)%string = a.
Proof.
  induction a as [|c a IH]; cbn.
  - destruct b; reflexivity.
  - rewrite IH. reflexivity.
Qed.

Lemma substring_skip (a b : string) (m : nat) :
  substring (String.length a) m (a ++ b)%string = substring 0 m b.
Proof. induction a as [|c a IH]; cbn; [reflexivity | exact IH]. Qed.

(** X19. The player cell shows the first six characters of the address,
    three dots and its last four characters; addresses that agree on those
    ten characters are shown alike. *)
Theorem playerCell_abbreviates (pre mid suf : string) :
  String.length pre = 6%nat -> String.length suf = 4%nat ->
  playerCell (Some (pre ++ mid ++ suf)%string) = (pre ++ "..." ++ suf)%string /\
  forall mid',
    playerCell (Some (pre ++ mid' ++ suf)%string)
    = playerCell (Some (pre ++ mid ++ suf)%string).
Proof.
  intros Hpre Hsuf.
  assert (E : forall m,
             playerCell (Some (pre ++ m ++ suf)%string)
             = (pre ++ "..." ++ suf)%string).
  { intros m. unfold playerCell.
    rewrite <- Hpre at 1. rewrite substring_prefix.
    rewrite (string_append_assoc pre m suf).
    rewrite (string_length_append (pre ++ m) suf), Hsuf.
    replace (String.length (pre ++ m)%string + 4 - 4)%nat
      with (String.length (pre ++ m)%string) by lia.
    rewrite substring_skip. rewrite <- Hsuf. rewrite substring_whole.
    reflexivity. }
  split; [apply E |]. intros mid'. rewrite !E. reflexivity.
Qed.

(** ** More on the two effects together *)

(** X20. Disconnecting empties the list and ends loading but leaves the
    error as it is: after the guarded return of the first effect the view is
    the error text when an error was set before, and nothing otherwise. *)
Theorem disconnect_keeps_error (isConnected : bool)
  (currentAccount : option string) (provider : Provider) (iface : Interface)
  (mD mC : Z -> bool) (mJ : bool) (st : State) :
  guard isConnected currentAccount = true ->
  error
    (applyUpdates
       (updates (historyEffect isConnected currentAccount provider iface
                   mD mC mJ)) st) = error st /\
  render
    (applyUpdates
       (updates (historyEffect isConnected currentAccount provider iface
                   mD mC mJ)) st)
  = if Js.truthy (error st) then ErrorView "Error" else NoView.
Proof.
  intros G. unfold historyEffect. rewrite G. cbn.
  split; [reflexivity |]. unfold render. cbn.
  destruct (Js.truthy (error st)); reflexivity.
Qed.

(** X21. A log delivered by the subscription whose record the historical
    fetch has already put into the list changes nothing: the two paths give
    the log the same transaction hash, so the updater finds it present. *)
Theorem live_log_already_fetched (provider provider' : Provider)
  (iface iface' : Interface) (currentAccount : string) (isMounted : bool)
  (log : Log) (g g' : GameType) (e : GameEvent) (st : State) :
  In e (recordsOf provider iface g log) ->
  In e (events st) ->
  applyUpdates
    (handleLogUpdates provider' iface' currentAccount isMounted log g') st
  = st.
Proof.
  intros He Hin.
  assert (Hh : transactionHash e = Js.orElse (log_transactionHash log) "unknown").
  { rewrite recordsOf_cases in He.
    destruct (parseLog iface (log_topics log) (log_data log)) as [p|];
      [| contradiction].
    destruct (getBlock provider (log_blockNumber log)) as [[b|]|];
      try contradiction.
    destruct He as [<- | []]. reflexivity. }
  destruct (handleLogUpdates provider' iface' currentAccount isMounted log g')
    as [|u us] eqn:Hu; [reflexivity |].
  assert (Hu' : In u (handleLogUpdates provider' iface' currentAccount
                        isMounted log g')) by (rewrite Hu; left; reflexivity).
  pose proof (handleLogUpdates_inv _ _ _ _ _ _ _ Hu') as
    [args [b [Hp [Hl [Hb [Hm E]]]]]].
  assert (Hus : us = []).
  { revert Hu. unfold handleLogUpdates, handleLog, tryCatch, bind, sync,
      await, ret. rewrite Hp. cbn. unfold samePlayer, playerOf. cbn.
    rewrite Hl, String.eqb_refl. cbn. rewrite Hb. cbn. rewrite Hm. cbn.
    intros H. injection H as _ <-. reflexivity. }
  subst us. cbn. rewrite E. cbn.
  rewrite eventsUpdater_present; [destruct st; reflexivity |].
  exists e. split; [exact Hin |]. cbn. exact Hh.
Qed.

(** X22. A first-effect run that is torn down before its joined fetch
    settles never writes the events list, whether the fetch then fulfils or
    rejects. *)
Theorem stale_fetch_keeps_events (isConnected : bool)
  (currentAccount : option string) (provider : Provider) (iface : Interface)
  (mD mC : Z -> bool) (st : State) :
  guard isConnected currentAccount = false ->
  events
    (applyUpdates
       (updates (historyEffect isConnected currentAccount provider iface
                   mD mC false)) st) = events st.
Proof.
  intros G. unfold historyEffect. rewrite G. cbn [updates negb].
  match goal with |- context [fst ?f] => destruct (fst f) as [[d c]|] end;
    reflexivity.
Qed.

(** ** The further properties at concrete inputs *)

Lemma getLogs_calls_within_window_witness :
  DICE_CONTRACT_ADDRESS = DICE_CONTRACT_ADDRESS /\
  inWindow 2000 1100 /\ inWindow 2000 1550 /\
  1100 < 1550 /\ 1550 - 1100 <= MAX_CHUNK_SIZE.
Proof.
  apply (getLogs_calls_within_window flakyNode dataIsPlayer alwaysMounted
           DICE_CONTRACT_ADDRESS dice 2000 DICE_CONTRACT_ADDRESS 1100 1550).
  - reflexivity.
  - cbn. right. right. left. reflexivity.
Defined.

Lemma mounted_scan_covers_window_witness :
  exists lo hi,
    In (CallGetLogs DICE_CONTRACT_ADDRESS lo hi)
       (snd (fetchEventsForContract flakyNode dataIsPlayer alwaysMounted
               DICE_CONTRACT_ADDRESS dice))
    /\ lo <= 777 <= hi.
Proof.
  apply (mounted_scan_covers_window flakyNode dataIsPlayer alwaysMounted
           DICE_CONTRACT_ADDRESS dice 2000 777).
  - intros j. reflexivity.
  - reflexivity.
  - lia.
  - unfold inWindow. cbn. lia.
Defined.

Lemma teardown_stops_the_scan_witness :
  fetchEventsForContract flakyNode dataIsPlayer (mountedBefore 2)
    DICE_CONTRACT_ADDRESS dice
  = (Fulfilled [sampleEvent 1550 "0xbb"],
     [CallGetBlockNumber;
      CallGetLogs DICE_CONTRACT_ADDRESS 1550 2000;
      CallGetLogs DICE_CONTRACT_ADDRESS 1100 1550;
      CallGetBlock 1550]).
Proof.
  apply (teardown_stops_the_scan flakyNode dataIsPlayer (mountedBefore 2)
           DICE_CONTRACT_ADDRESS dice 2000 2).
  - reflexivity.
  - reflexivity.
  - intros j Hj. unfold mountedBefore. apply Z.ltb_lt. cbn in Hj. lia.
  - reflexivity.
Defined.

Lemma fetched_records_come_from_logs_witness :
  gameType (sampleEvent 1988 "0xa") = dice /\
  exists latestBlock i logs log block,
    getBlockNumber (nodeOver 2000 busyChain) = Fulfilled latestBlock /\
    0 <= i < chunksNeeded latestBlock /\
    getLogs (nodeOver 2000 busyChain) DICE_CONTRACT_ADDRESS
      (fromBlock latestBlock i) (toBlock latestBlock i) = Fulfilled logs /\
    In log logs /\
    getBlock (nodeOver 2000 busyChain) (log_blockNumber log)
    = Fulfilled (Some block) /\
    blockNumber (sampleEvent 1988 "0xa") = log_blockNumber log /\
    transactionHash (sampleEvent 1988 "0xa")
    = Js.orElse (log_transactionHash log) "unknown" /\
    timestamp (sampleEvent 1988 "0xa") = block_timestamp block.
Proof.
  apply (fetched_records_come_from_logs (nodeOver 2000 busyChain) dataIsPlayer
           alwaysMounted DICE_CONTRACT_ADDRESS dice thirteen
           (sampleEvent 1988 "0xa")).
  - reflexivity.
  - left. reflexivity.
Defined.

Lemma undecoded_log_kept_by_history_witness :
  recordsOf (nodeOver 2000 emptyChain) nullDecoder coinflip
    (logAt 7 "0xc" stranger)
  = [ {| blockNumber := 7; transactionHash := "0xc";
         player := None; amount := None; choice := NaN; outcome := NaN;
         won := None; gameType := coinflip; timestamp := 14 |} ] /\
  handleLog (nodeOver 2000 emptyChain) nullDecoder account true
    (logAt 7 "0xc" stranger) coinflip = (Fulfilled [], []).
Proof.
  apply (undecoded_log_kept_by_history (nodeOver 2000 emptyChain) nullDecoder
           account true coinflip (logAt 7 "0xc" stranger)
           {| block_timestamp := 14 |}); reflexivity.
Defined.

Lemma live_updates_keep_hashes_distinct_witness :
  distinctHashes
    (events
       (applyUpdates
          [mkUpdate false (SetLoading true);
           mkUpdate false (SetEventsWith (sampleEvent 7 "0xc"));
           mkUpdate false (SetEventsWith (sampleEvent 9 "0xc"));
           mkUpdate false (SetEventsWith (sampleEvent 5 "0xa"))]
          initialState)).
Proof.
  apply live_updates_keep_hashes_distinct.
  - intros u l H. cbn in H.
    repeat (destruct H as [<- | H]; [cbn; discriminate |]). contradiction.
  - constructor.
Defined.

Lemma newest_event_on_top_witness :
  eventsUpdater (sampleEvent 9 "0xd") [sampleEvent 5 "0xa"; sampleEvent 9 "0xb"]
  = sampleEvent 9 "0xd"
    :: firstn (MAX_RESULTS - 1)
         (Js.sort byBlockDesc [sampleEvent 5 "0xa"; sampleEvent 9 "0xb"]).
Proof.
  apply newest_event_on_top.
  - intros [r [[<- | [<- | []]] Hr]]; discriminate Hr.
  - intros r [<- | [<- | []]]; cbn; lia.
Defined.

Lemma updater_adds_only_the_event_witness :
  (sampleEvent 5 "0xa" = sampleEvent 7 "0xc" \/
   In (sampleEvent 5 "0xa") [sampleEvent 9 "0xb"; sampleEvent 5 "0xa"]) /\
  Permutation
    (eventsUpdater (sampleEvent 7 "0xc")
       [sampleEvent 9 "0xb"; sampleEvent 5 "0xa"])
    [sampleEvent 7 "0xc"; sampleEvent 9 "0xb"; sampleEvent 5 "0xa"].
Proof.
  destruct (updater_adds_only_the_event (sampleEvent 7 "0xc")
              [sampleEvent 9 "0xb"; sampleEvent 5 "0xa"]) as [Honly Hall].
  split.
  - apply Honly. cbn. right. right. left. reflexivity.
  - apply Hall.
    + intros [r [[<- | [<- | []]] Hr]]; discriminate Hr.
    + unfold MAX_RESULTS. cbn. lia.
Defined.

Lemma hashless_logs_collide_witness :
  transactionHash
    (gameEventOf (logAt 9 "" stranger) None None coinflip
       {| block_timestamp := 18 |}) = "unknown" /\
  eventsUpdater
    (gameEventOf (logAt 9 "" stranger) None None coinflip
       {| block_timestamp := 18 |})
    [gameEventOf (logAt 7 "" account) None None dice {| block_timestamp := 14 |}]
  = [gameEventOf (logAt 7 "" account) None None dice {| block_timestamp := 14 |}].
Proof.
  apply (hashless_logs_collide (logAt 7 "" account) (logAt 9 "" stranger)
           None None None None dice coinflip
           {| block_timestamp := 14 |} {| block_timestamp := 18 |}).
  - reflexivity.
  - reflexivity.
  - left. reflexivity.
Defined.

Lemma reachable_hashes_nonempty_witness :
  In (sampleEvent 7 "0xc")
     (events (applySetter (SetEventsWith (sampleEvent 7 "0xc")) initialState)) /\
  transactionHash (sampleEvent 7 "0xc") <> "".
Proof.
  split; [left; reflexivity |].
  apply (reachable_hashes_nonempty
           (applySetter (SetEventsWith (sampleEvent 7 "0xc")) initialState)).
  - apply reachable_update; [apply reachable_initial |].
    apply (emits_handleLog (nodeOver 2000 emptyChain) dataIsPlayer stranger true
             (logAt 7 "0xc" stranger) dice
             (mkUpdate false (SetEventsWith (sampleEvent 7 "0xc")))).
    left. reflexivity.
  - left. reflexivity.
Defined.

Lemma error_view_persists_witness :
  (render
     (applyUpdates
        (handleLogUpdates (nodeOver 2000 emptyChain) dataIsPlayer strangerUpper
           true (logAt 2001 "0xz" stranger) dice)
        (mkState [sampleEvent 1990 "0xa"] false failedToFetch))
   = ErrorView "Error" /\
   error
     (applyUpdates
        (handleLogUpdates (nodeOver 2000 emptyChain) dataIsPlayer strangerUpper
           true (logAt 2001 "0xz" stranger) dice)
        (mkState [sampleEvent 1990 "0xa"] false failedToFetch))
   = error (mkState [sampleEvent 1990 "0xa"] false failedToFetch) /\
   loading
     (applyUpdates
        (handleLogUpdates (nodeOver 2000 emptyChain) dataIsPlayer strangerUpper
           true (logAt 2001 "0xz" stranger) dice)
        (mkState [sampleEvent 1990 "0xa"] false failedToFetch)) = false) /\
  (events
     (applyUpdates
        (handleLogUpdates (nodeOver 2000 emptyChain) dataIsPlayer strangerUpper
           true (logAt 2001 "0xz" stranger) dice)
        (mkState [sampleEvent 1990 "0xa"] false failedToFetch))
   = firstn MAX_RESULTS [sampleEvent 2001 "0xz"; sampleEvent 1990 "0xa"] /\
   render
     (applyUpdates
        (handleLogUpdates (nodeOver 2000 emptyChain) dataIsPlayer strangerUpper
           true (logAt 2001 "0xz" stranger) dice)
        (mkState [sampleEvent 1990 "0xa"] false failedToFetch))
   = ErrorView "Error").
Proof.
  destruct (error_view_persists
              (mkState [sampleEvent 1990 "0xa"] false failedToFetch)
              eq_refl eq_refl) as [Hany Hone].
  split.
  - apply Hany. intros u Hu.
    exists (nodeOver 2000 emptyChain), dataIsPlayer, strangerUpper, true,
      (logAt 2001 "0xz" stranger), dice.
    exact Hu.
  - apply (Hone (nodeOver 2000 emptyChain) dataIsPlayer strangerUpper
             (logAt 2001 "0xz" stranger) dice
             {| arg_player := stranger; arg_amount := 1; arg_choice := 3;
                arg_outcome := 3; arg_won := true |}
             {| block_timestamp := 2001 * 2 |}).
    + reflexivity.
    + reflexivity.
    + reflexivity.
    + intros [r [[<- | []] Hr]]. discriminate Hr.
    + apply Sorted_mostRecentFirst.
      repeat constructor; unfold newerOrSame; cbn; lia.
    + intros k. unfold atBlock. cbn -[Z.eqb].
      destruct (Z.eqb_spec 2001 k), (Z.eqb_spec 1990 k); try reflexivity; lia.
Defined.

Lemma history_result_replaces_list_witness :
  (applyUpdates
     (updates (historyEffect true (Some account) (nodeOver 2000 mixedChain)
                 dataIsPlayer alwaysMounted alwaysMounted true))
     (mkState thirteen true failedToFetch)
   = {| events := allEvents [sampleEvent 1990 "0xa"; sampleEvent 1995 "0xb"]
                    [sampleFlip 1993 "0xc"; sampleFlip 1995 "0xd"];
        loading := false; error := None |} /\
   render
     (applyUpdates
        (updates (historyEffect true (Some account) (nodeOver 2000 mixedChain)
                    dataIsPlayer alwaysMounted alwaysMounted true))
        (mkState thirteen true failedToFetch))
   = TableView [sampleEvent 1995 "0xb"; sampleFlip 1995 "0xd";
                sampleFlip 1993 "0xc"; sampleEvent 1990 "0xa"]) /\
  (applyUpdates
     (updates (historyEffect true (Some account) (nodeOver 2000 mixedChain)
                 nullDecoder alwaysMounted alwaysMounted true))
     (mkState thirteen true failedToFetch)
   = {| events := allEvents [undecodedEvent 1990 "0xa" dice;
                             undecodedEvent 1995 "0xb" dice]
                    [undecodedEvent 1993 "0xc" coinflip;
                     undecodedEvent 1995 "0xd" coinflip];
        loading := false; error := None |} /\
   render
     (applyUpdates
        (updates (historyEffect true (Some account) (nodeOver 2000 mixedChain)
                    nullDecoder alwaysMounted alwaysMounted true))
        (mkState thirteen true failedToFetch))
   = RenderThrows).
Proof.
  split.
  - apply (history_result_replaces_list true (Some account)
             (nodeOver 2000 mixedChain) dataIsPlayer alwaysMounted alwaysMounted
             (mkState thirteen true failedToFetch)
             [sampleEvent 1990 "0xa"; sampleEvent 1995 "0xb"]
             [sampleFlip 1993 "0xc"; sampleFlip 1995 "0xd"]); reflexivity.
  - apply (history_result_replaces_list true (Some account)
             (nodeOver 2000 mixedChain) nullDecoder alwaysMounted alwaysMounted
             (mkState thirteen true failedToFetch)
             [undecodedEvent 1990 "0xa" dice; undecodedEvent 1995 "0xb" dice]
             [undecodedEvent 1993 "0xc" coinflip;
              undecodedEvent 1995 "0xd" coinflip]); reflexivity.
Defined.

Lemma formatTimestamp_just_now_witness :
  formatTimestamp 1700000030000 1700000000 = "Just now" /\
  formatTimestamp 1700000030000 1700009999 = "Just now".
Proof.
  split; apply formatTimestamp_just_now; unfold MAX_TIME_VALUE; lia.
Defined.

Lemma formatTimestamp_age_witness :
  exists n unit,
    formatTimestamp 1700007500000 1700000000
    = (numToString (Num n) ++ " " ++ unit
       ++ (if (n =? 1)%Z then "" else "s") ++ " ago")%string /\
    1 <= n /\
    ((unit = "min" /\ n = (1700007500000 - 1700000000 * 1000) / 60000 /\
      (1700007500000 - 1700000000 * 1000) / 60000 < 60) \/
     (unit = "hour" /\ n = (1700007500000 - 1700000000 * 1000) / 60000 / 60 /\
      60 <= (1700007500000 - 1700000000 * 1000) / 60000 < 1440 /\ n < 24) \/
     (unit = "day" /\ n = (1700007500000 - 1700000000 * 1000) / 60000 / 1440 /\
      1440 <= (1700007500000 - 1700000000 * 1000) / 60000)).
Proof.
  apply (formatTimestamp_age 1700007500000 1700000000);
    unfold MAX_TIME_VALUE; lia.
Defined.

Lemma formatTimestamp_invalid_date_witness :
  formatTimestamp 1700000000000 10000000000000 = "NaN days ago".
Proof.
  apply formatTimestamp_invalid_date. unfold MAX_TIME_VALUE. lia.
Defined.

Lemma playerCell_abbreviates_witness :
  playerCell (Some ("0xde70" ++ "9f2102306220921060314715629080e2" ++ "fb77")%string)
  = ("0xde70" ++ "..." ++ "fb77")%string /\
  forall mid',
    playerCell (Some ("0xde70" ++ mid' ++ "fb77")%string)
    = playerCell
        (Some ("0xde70" ++ "9f2102306220921060314715629080e2" ++ "fb77")%string).
Proof.
  apply playerCell_abbreviates; reflexivity.
Defined.

Lemma disconnect_keeps_error_witness :
  error
    (applyUpdates
       (updates (historyEffect false (Some account) (nodeOver 2000 busyChain)
                   dataIsPlayer alwaysMounted alwaysMounted true))
       (mkState thirteen false failedToFetch))
  = error (mkState thirteen false failedToFetch) /\
  render
    (applyUpdates
       (updates (historyEffect false (Some account) (nodeOver 2000 busyChain)
                   dataIsPlayer alwaysMounted alwaysMounted true))
       (mkState thirteen false failedToFetch))
  = if Js.truthy (error (mkState thirteen false failedToFetch))
    then ErrorView "Error" else NoView.
Proof.
  apply disconnect_keeps_error. reflexivity.
Defined.

Lemma live_log_already_fetched_witness :
  applyUpdates
    (handleLogUpdates (nodeOver 2000 busyChain) dataIsPlayer strangerUpper true
       (logAt 1990 "0xc" stranger) dice)
    (mkState thirteen false None)
  = mkState thirteen false None.
Proof.
  apply (live_log_already_fetched (nodeOver 2000 busyChain)
           (nodeOver 2000 busyChain) dataIsPlayer dataIsPlayer strangerUpper
           true (logAt 1990 "0xc" stranger) dice dice (sampleEvent 1990 "0xc")).
  - left. reflexivity.
  - cbn. right. right. left. reflexivity.
Defined.

Lemma stale_fetch_keeps_events_witness :
  events
    (applyUpdates
       (updates (historyEffect true (Some account) (nodeOver 2000 busyChain)
                   dataIsPlayer alwaysMounted alwaysMounted false))
       (mkState [sampleEvent 7 "0xc"] true None))
  = events (mkState [sampleEvent 7 "0xc"] true None).
Proof.
  apply stale_fetch_keeps_events. reflexivity.
Defined.

(** ** [Number] of a decoded integer *)

(** Integers up to 2^53 in magnitude convert exactly. *)
Lemma Number_of_bigint_exact (b : Z) :
  Z.abs b <= 2 ^ 53 -> Number_of_bigint b = b.
Proof.
  intros H. unfold Number_of_bigint.
  destruct (Z.leb_spec (Z.abs b) (2 ^ 53)); [reflexivity | lia].
Qed.

(** Above 2^53 the conversion rounds to the nearest double, a tie to the
    even one: 2^53 + 1 goes down to 2^53, 2^53 + 3 up to 2^53 + 4. *)
Lemma Number_of_bigint_ties :
  Number_of_bigint (2 ^ 53 + 1) = 2 ^ 53 /\
  Number_of_bigint (2 ^ 53 + 3) = 2 ^ 53 + 4 /\
  Number_of_bigint (- (2 ^ 53 + 3)) = - (2 ^ 53 + 4).
Proof. repeat split; reflexivity. Qed.
